(** * Strategy transformers of Axelrod: a shallow embedding

    The development follows [axelrod/strategy_transformers.py]: class
    decorators that wrap the [strategy] method of a player class with a
    wrapper function.  Python objects live in an explicit store; a call is
    a computation in a state-and-exception monad over that store. *)

From Stdlib Require Import QArith.
From stdpp Require Import gmap strings list fin_maps.

(** ** Actions *)

Inductive Action := C | D.

#[global] Instance Action_eq_dec : EqDecision Action.
Proof. solve_decision. Defined.

(** Modelled from the spec: [flip_action] of [axelrod/actions.py], which is
    not among the sources.  The action type has exactly two values and
    [flip] exchanges them (Cooperate <-> Defect). *)
Definition flip_action (action : Action) : Action :=
  match action with
  | C => D
  | D => C
  end.

(** ** The store *)

Abbreviation loc := nat.

(** Modelled from the spec: the attributes of a [Player] instance that the
    wrappers read or write ([axelrod/player.py] is not among the sources):
    the player's own history, [tournament_attributes["length"]] (-1 when the
    length is unknown) and the attribute [_recorded_history], which is absent
    until the history-tracking wrapper creates it. *)
Record Player := mkPlayer {
  history : list Action;
  tournament_length : Z;
  _recorded_history : option (list Action)
}.

(** A freshly constructed player: empty history, unknown match length,
    no recorded history. *)
Definition new_player : Player :=
  {| history := []; tournament_length := -1; _recorded_history := None |}.

#[global] Instance Player_inhabited : Inhabited Player := populate new_player.

(** The only attribute of a [RetaliationWrapper] object. *)
Record RetaliationWrapper := mkRetaliationWrapper {
  is_retaliating : bool
}.

(** The store: the global random generator (the samples it will produce and
    how many have been drawn), the player objects and the wrapper objects.
    A player location that was never written holds a fresh player; wrapper
    objects are allocated in order, the next one at [length wrappers]. *)
Record World := mkWorld {
  rng_samples : nat -> Q;
  rng_drawn : nat;
  players : gmap loc Player;
  wrappers : list RetaliationWrapper
}.

Definition get_player (w : World) (p : loc) : Player := players w !!! p.

Definition set_player (p : loc) (x : Player) (w : World) : World :=
  {| rng_samples := rng_samples w; rng_drawn := rng_drawn w;
     players := <[p := x]> (players w); wrappers := wrappers w |}.

Definition set_wrapper (r : loc) (x : RetaliationWrapper) (w : World) : World :=
  {| rng_samples := rng_samples w; rng_drawn := rng_drawn w;
     players := players w; wrappers := <[r := x]> (wrappers w) |}.

(** ** Computations *)

(** The Python exceptions that the modelled code can raise.  [InvalidRef]
    has no Python counterpart: it marks a wrapper location that was never
    allocated. *)
Inductive Exn := KeyError | AttributeError | IndexError | TypeError | InvalidRef.

Inductive Result (A : Type) :=
| Ok (a : A)
| Raise (e : Exn).
Arguments Ok {A} a.
Arguments Raise {A} e.

Definition M (A : Type) : Type := World -> Result A * World.

Definition ret {A} (a : A) : M A := fun w => (Ok a, w).

Definition raise {A} (e : Exn) : M A := fun w => (Raise e, w).

Definition bind {A B} (m : M A) (k : A -> M B) : M B :=
  fun w => match m w with
           | (Ok a, w') => k a w'
           | (Raise e, w') => (Raise e, w')
           end.

#[global] Instance M_ret : MRet M := @ret.
#[global] Instance M_bind : MBind M := fun A B k m => bind m k.

#[global] Instance Exn_eq_dec : EqDecision Exn.
Proof. solve_decision. Defined.

(** [try: m except e: handler]. *)
Definition try_except {A} (m : M A) (e : Exn) (handler : M A) : M A :=
  fun w => match m w with
           | (Raise e', w') => if decide (e' = e) then handler w' else (Raise e', w')
           | r => r
           end.

(** ** Primitive operations on the store *)

(** [random.random()]: the next sample of the global generator. *)
Definition random_random : M Q :=
  fun w => (Ok (rng_samples w (rng_drawn w)),
            {| rng_samples := rng_samples w; rng_drawn := S (rng_drawn w);
               players := players w; wrappers := wrappers w |}).

(** [player.history]. *)
Definition get_history (player : loc) : M (list Action) :=
  fun w => (Ok (history (get_player w player)), w).

(** [player.tournament_attributes["length"]]. *)
Definition get_tournament_length (player : loc) : M Z :=
  fun w => (Ok (tournament_length (get_player w player)), w).

(** [player._recorded_history]; an [AttributeError] when the attribute was
    never set. *)
Definition get_recorded_history (player : loc) : M (list Action) :=
  fun w => match _recorded_history (get_player w player) with
           | Some l => (Ok l, w)
           | None => (Raise AttributeError, w)
           end.

(** [player._recorded_history = l]. *)
Definition set_recorded_history (player : loc) (l : list Action) : M unit :=
  fun w => let x := get_player w player in
           (Ok tt, set_player player
                     {| history := history x;
                        tournament_length := tournament_length x;
                        _recorded_history := Some l |} w).

(** [self.is_retaliating] of a wrapper object. *)
Definition get_is_retaliating (self : loc) : M bool :=
  fun w => match wrappers w !! self with
           | Some x => (Ok (is_retaliating x), w)
           | None => (Raise InvalidRef, w)
           end.

(** [self.is_retaliating = b]. *)
Definition set_is_retaliating (self : loc) (b : bool) : M unit :=
  fun w => match wrappers w !! self with
           | Some _ => (Ok tt, set_wrapper self {| is_retaliating := b |} w)
           | None => (Raise InvalidRef, w)
           end.

(** [l[i]] on a Python list: a negative index counts from the end, an index
    out of range raises [IndexError]. *)
Definition getitem {A} (l : list A) (i : Z) : M A :=
  let n := Z.of_nat (length l) in
  let j := (if i <? 0 then i + n else i)%Z in
  if (j <? 0)%Z then raise IndexError
  else match l !! Z.to_nat j with
       | Some x => mret x
       | None => raise IndexError
       end.

(** ** Classes *)

(** The values a class namespace holds: strings (the [name], a docstring,
    a module name), [None], the two forms of a [strategy] entry, and any
    other value, kept opaque.  A static method takes the opponent, a plain
    function the player and the opponent. *)
Inductive Value :=
| VStr (s : string)
| VNone
| VStaticMethod (f : loc -> M Action)
| VFunction (f : loc -> loc -> M Action)
| VOther (n : nat).

(** A class object: its [__name__], its base class ([None] for a class
    directly under the root) and its own namespace [__dict__]. *)
#[warnings="-register-all"]
Inductive PyClass := mkClass {
  __name__ : string;
  __base__ : option PyClass;
  __dict__ : gmap string Value
}.

(** Attribute lookup on a class, [cls.k]: the class's own namespace first,
    then its bases in order. *)
Fixpoint class_getattr (cls : PyClass) (k : string) : option Value :=
  match __dict__ cls !! k with
  | Some v => Some v
  | None => match __base__ cls with
            | Some b => class_getattr b k
            | None => None
            end
  end.

(** [isinstance(v, staticmethod)]. *)
Definition is_staticmethod (v : Value) : bool :=
  match v with
  | VStaticMethod _ => true
  | _ => false
  end.

(** [PlayerClass.strategy(opponent)]: the attribute found on the class is
    called with one argument. *)
Definition call_strategy1 (PlayerClass : PyClass) (opponent : loc) : M Action :=
  match class_getattr PlayerClass "strategy" with
  | Some (VStaticMethod f) => f opponent
  | Some _ => raise TypeError
  | None => raise AttributeError
  end.

(** [PlayerClass.strategy(self, opponent)]: the attribute found on the class
    is called with two arguments. *)
Definition call_strategy2 (PlayerClass : PyClass) (self opponent : loc) : M Action :=
  match class_getattr PlayerClass "strategy" with
  | Some (VFunction f) => f self opponent
  | Some _ => raise TypeError
  | None => raise AttributeError
  end.

(** [player.strategy(opponent)] for an instance [self] of the class [cls]:
    what the match runner calls once per round. *)
Definition call_strategy (cls : PyClass) (self opponent : loc) : M Action :=
  match class_getattr cls "strategy" with
  | Some (VFunction f) => f self opponent
  | Some (VStaticMethod f) => f opponent
  | Some _ => raise TypeError
  | None => raise AttributeError
  end.

(** The [__name__] of the module that holds the transformers, where
    [decorate] calls [type]. *)
Definition module_name : string := "axelrod.strategy_transformers".

(** [type(new_class_name, (PlayerClass,), namespace)].  Besides the entries
    it is given, [type] writes into the namespace of the new class the
    entries [__module__] (the module of the calling code) and [__doc__]
    ([None]), unless the given namespace has them already. *)
Definition new_type (new_class_name : string) (PlayerClass : PyClass)
    (namespace : gmap string Value) : PyClass :=
  {| __name__ := new_class_name; __base__ := Some PlayerClass;
     __dict__ := namespace ∪ {[ "__module__" := VStr module_name;
                                "__doc__" := VNone ]} |}.

(** ** The transformer factory *)

(** A strategy wrapper with its extra arguments already supplied:
    [fun player opponent proposed_action =>
       strategy_wrapper(player, opponent, proposed_action, *wrapper_args)]. *)
Definition Wrapper : Type := loc -> loc -> Action -> M Action.

(** Truth value of the [name_prefix] argument: [None] and the empty string
    are false. *)
Definition truthy (name_prefix : option string) : bool :=
  match name_prefix with
  | None => false
  | Some s => negb (String.eqb s "")
  end.

(** The [strategy] method that [decorate] defines for the new class. *)
Definition strategy (strategy_wrapper : Wrapper) (PlayerClass : PyClass)
    (self opponent : loc) : M Action :=
  match __dict__ PlayerClass !! "strategy" with
  | None => raise KeyError
  | Some v =>
      proposed_action ←
        (if is_staticmethod v
         then call_strategy1 PlayerClass opponent
         else call_strategy2 PlayerClass self opponent);
      strategy_wrapper self opponent proposed_action
  end.

(** [decorate(PlayerClass, name_prefix)], closed over [strategy_wrapper].
    Reading [PlayerClass.name] raises [AttributeError] when no class of the
    hierarchy has it; putting the prefix before a name that is not a string
    raises [TypeError]. *)
Definition decorate (strategy_wrapper : Wrapper) (name_prefix : option string)
    (PlayerClass : PyClass) : Result PyClass :=
  let new_class_name := __name__ PlayerClass in
  match class_getattr PlayerClass "name" with
  | None => Raise AttributeError
  | Some name =>
      let namespace (name : Value) : gmap string Value :=
        {[ "name" := name;
           "strategy" := VFunction (strategy strategy_wrapper PlayerClass) ]} in
      if truthy name_prefix then
        let prefix := default "" name_prefix in
        let new_class_name := prefix +:+ __name__ PlayerClass in
        match name with
        | VStr s =>
            Ok (new_type new_class_name PlayerClass
                  (namespace (VStr (prefix +:+ " " +:+ s))))
        | _ => Raise TypeError
        end
      else Ok (new_type new_class_name PlayerClass (namespace name))
  end.

(** A transformation: the [decorate] function the factory returns. *)
Definition Transformer : Type := PyClass -> Result PyClass.

Definition StrategyTransformerFactory (strategy_wrapper : Wrapper)
    (name_prefix : option string) : Transformer :=
  decorate strategy_wrapper name_prefix.

(** ** The wrappers and their transformers *)

(** [generic_strategy_wrapper]: the form every wrapper has; it passes the
    proposed action through. *)
Definition generic_strategy_wrapper (player opponent : loc)
    (proposed_action : Action) : M Action :=
  mret proposed_action.

Definition flip_wrapper (player opponent : loc) (action : Action) : M Action :=
  mret (flip_action action).

Definition FlipTransformer : Transformer :=
  StrategyTransformerFactory flip_wrapper (Some "Flipped").

(** The sample and the noise level are rationals: the comparison of two
    finite floating-point numbers is the comparison of their values. *)
Definition noisy_wrapper (player opponent : loc) (action : Action) (noise : Q)
    : M Action :=
  r ← random_random;
  if Qlt_le_dec r noise then mret (flip_action action) else mret action.

(** [NoisyTransformer(noise, name_prefix)]; Python's default for the
    prefix is ["Noisy"]. *)
Definition NoisyTransformer (noise : Q) (name_prefix : option string)
    : Transformer :=
  StrategyTransformerFactory
    (fun player opponent action => noisy_wrapper player opponent action noise)
    name_prefix.

(** [forgiver_wrapper].  [random_choice] of [axelrod/random_.py] is not
    among the sources and is taken as a parameter. *)
Definition forgiver_wrapper (random_choice : Q -> M Action)
    (player opponent : loc) (action : Action) (p : Q) : M Action :=
  if decide (action = D) then random_choice p else mret C.

(** [ForgiverTransformer(p, name_prefix)]; Python's default for the prefix
    is ["Forgiving"]. *)
Definition ForgiverTransformer (random_choice : Q -> M Action) (p : Q)
    (name_prefix : option string) : Transformer :=
  StrategyTransformerFactory
    (fun player opponent action =>
       forgiver_wrapper random_choice player opponent action p)
    name_prefix.

Definition initial_sequence (player opponent : loc) (action : Action)
    (initial_seq : list Action) : M Action :=
  h ← get_history player;
  let index := length h in
  if (index <? length initial_seq)%nat
  then getitem initial_seq (Z.of_nat index)
  else mret action.

(** [not seq]: true for [None] and for the empty list. *)
Definition not_seq (seq : option (list Action)) : bool :=
  match seq with
  | None | Some [] => true
  | Some (_ :: _) => false
  end.

(** The sequence a transformer uses: [seq], or [[D] * 3] when [not seq]. *)
Definition seq_or_default (seq : option (list Action)) : list Action :=
  if not_seq seq then replicate 3 D else default [] seq.

(** [InitialTransformer(seq)]; [seq] defaults to [None]. *)
Definition InitialTransformer (seq : option (list Action)) : Transformer :=
  let seq := seq_or_default seq in
  StrategyTransformerFactory
    (fun player opponent action => initial_sequence player opponent action seq)
    None.

Definition final_sequence (player opponent : loc) (action : Action)
    (seq : list Action) : M Action :=
  length ← get_tournament_length player;
  if (length <? 0)%Z then mret action
  else
    h ← get_history player;
    let index := (length - Z.of_nat (List.length h))%Z in
    if (index <=? Z.of_nat (List.length seq))%Z
    then getitem seq (- index)
    else mret action.

(** [FinalTransformer(seq)]; [seq] defaults to [None]. *)
Definition FinalTransformer (seq : option (list Action)) : Transformer :=
  let seq := seq_or_default seq in
  StrategyTransformerFactory
    (fun player opponent action => final_sequence player opponent action seq)
    None.

(** [RetaliationWrapper()]: allocates a wrapper object with
    [is_retaliating = False] and returns its location. *)
Definition RetaliationWrapper_init : M loc :=
  fun w => (Ok (length (wrappers w)),
            {| rng_samples := rng_samples w; rng_drawn := rng_drawn w;
               players := players w;
               wrappers := wrappers w ++ [ {| is_retaliating := false |} ] |}).

(** [RetaliationWrapper.__call__]. *)
Definition RetaliationWrapper_call (self : loc) (player opponent : loc)
    (action : Action) : M Action :=
  h ← get_history player;
  if (length h =? 0)%nat then mret action
  else
    oh ← get_history opponent;
    last ← getitem oh (-1);
    (if decide (last = D) then set_is_retaliating self true else mret tt);;
    r ← get_is_retaliating self;
    if (r : bool) then
      oh ← get_history opponent;
      last ← getitem oh (-1);
      if decide (last = C)
      then set_is_retaliating self false;; mret C
      else mret D
    else mret action.

(** [RetailiateUntilApologyTransformer(name_prefix)]; Python's default for
    the prefix is ["RUA"].  The wrapper object is created once, when the
    transformer is built; the [strategy] of every class the transformer
    produces closes over it. *)
Definition RetailiateUntilApologyTransformer (name_prefix : option string)
    : M Transformer :=
  strategy_wrapper ← RetaliationWrapper_init;
  mret (StrategyTransformerFactory (RetaliationWrapper_call strategy_wrapper)
          name_prefix).

Definition history_track_wrapper (player opponent : loc) (action : Action)
    : M Action :=
  try_except
    (l ← get_recorded_history player;
     set_recorded_history player (l ++ [action]))
    AttributeError
    (set_recorded_history player [action]);;
  mret action.

Definition TrackHistoryTransformer : Transformer :=
  StrategyTransformerFactory history_track_wrapper (Some "HistoryTracking").

(** ** The match runner *)

(** Modelled from the spec: the match runner, which is not among the
    sources, appends exactly one action per round to a player's history,
    after the decision of that round. *)
Definition update_history (player : loc) (action : Action) : M unit :=
  fun w => let x := get_player w player in
           (Ok tt, set_player player
                     {| history := history x ++ [action];
                        tournament_length := tournament_length x;
                        _recorded_history := _recorded_history x |} w).

(** Modelled from the spec: one match of an instance [player] of the class
    [cls] against an opponent whose actions are given round by round.  Each
    round calls [player.strategy(opponent)] once and then records both
    actions; the result is the sequence of actions the player returned. *)
Fixpoint play (cls : PyClass) (player opponent : loc)
    (opponent_actions : list Action) : M (list Action) :=
  match opponent_actions with
  | [] => mret []
  | b :: rest =>
      a ← call_strategy cls player opponent;
      update_history player a;;
      update_history opponent b;;
      outs ← play cls player opponent rest;
      mret (a :: outs)
  end.

(** ** Example classes and stores *)

(** Modelled from the spec: an always-Cooperate and an always-Defect base
    agent type (the strategy classes are not among the sources); their
    [strategy] is a static method. *)
Definition Cooperator : PyClass :=
  {| __name__ := "Cooperator"; __base__ := None;
     __dict__ := {[ "name" := VStr "Cooperator";
                    "strategy" := VStaticMethod (fun _ => mret C) ]} |}.

Definition Defector : PyClass :=
  {| __name__ := "Defector"; __base__ := None;
     __dict__ := {[ "name" := VStr "Defector";
                    "strategy" := VStaticMethod (fun _ => mret D) ]} |}.

(** A store with no object written yet, whose generator always yields [r]. *)
Definition empty_world (r : Q) : World :=
  {| rng_samples := fun _ => r; rng_drawn := 0;
     players := ∅; wrappers := [] |}.

(** Result and final store projections. *)
Definition result_of {A} (x : Result A * World) : Result A := fst x.
Definition world_of {A} (x : Result A * World) : World := snd x.

(** A class with a [name] and no [strategy], neither its own nor an
    inherited one. *)
Definition NoStrategy : PyClass :=
  {| __name__ := "NoStrategy"; __base__ := None;
     __dict__ := {[ "name" := VStr "No Strategy" ]} |}.

(** [class CooperatorChild(Cooperator): pass]: the [strategy] is inherited,
    the class's own namespace has none. *)
Definition CooperatorChild : PyClass :=
  {| __name__ := "CooperatorChild"; __base__ := Some Cooperator;
     __dict__ := ∅ |}.

(** An always-Cooperate class as a [class] statement in a strategy module
    leaves it: with its docstring and the name of its module in its
    namespace. *)
Definition DocumentedCooperator : PyClass :=
  {| __name__ := "Cooperator"; __base__ := None;
     __dict__ := {[ "name" := VStr "Cooperator";
                    "strategy" := VStaticMethod (fun _ => mret C);
                    "__module__" := VStr "axelrod.strategies.cooperator";
                    "__doc__" := VStr "A player who only ever cooperates." ]} |}.

(** A store in which [player] has the history [h] and the match length
    [L], and nothing else was written. *)
Definition world_with (player : loc) (h : list Action) (L : Z) : World :=
  set_player player
    {| history := h; tournament_length := L; _recorded_history := None |}
    (empty_world 0).

(** Two matches under way in the store [w]: the players 0 and 2 have each
    played Defect once; the opponent 1 of player 0 has defected, the
    opponent 3 of player 2 has cooperated. *)
Definition two_matches (w : World) : World :=
  let after_one_round a :=
    {| history := [a]; tournament_length := -1; _recorded_history := None |} in
  set_player 3 (after_one_round C)
    (set_player 2 (after_one_round D)
       (set_player 1 (after_one_round D)
          (set_player 0 (after_one_round D) w))).

(** ** Properties of base classes *)

(** The class has a [strategy] entry in its own namespace. *)
Definition defines_strategy (cls : PyClass) : Prop :=
  is_Some (__dict__ cls !! "strategy").

(** The class defines its own [strategy], which returns [a] on every call
    and leaves the store as it was. *)
Definition always_plays (a : Action) (cls : PyClass) : Prop :=
  defines_strategy cls /\
  forall self opponent w, call_strategy cls self opponent w = (Ok a, w).


(** ** Proof automation *)

(** Settles the integer comparisons of the goal by [lia], innermost first. *)
Ltac simple_operand a :=
  lazymatch a with
  | context [if _ then _ else _] => fail
  | _ => idtac
  end.

Ltac settle_comparisons :=
  repeat match goal with
         | |- context [(?a <? ?b)%Z] =>
             simple_operand a; simple_operand b;
             destruct (Z.ltb_spec a b); try lia
         | |- context [(?a <=? ?b)%Z] =>
             simple_operand a; simple_operand b;
             destruct (Z.leb_spec a b); try lia
         end.

(** * Basic facts *)

Lemma bind_ok {A B} (m : M A) (k : A -> M B) w a w' :
  m w = (Ok a, w') -> (m ≫= k) w = k a w'.
Proof. intros H. unfold mbind, M_bind, bind. by rewrite H. Qed.
Arguments bind_ok {A B m k w a w'} _.

Lemma flip_action_involutive action : flip_action (flip_action action) = action.
Proof. by destruct action. Qed.

Lemma class_getattr_own cls k v :
  __dict__ cls !! k = Some v -> class_getattr cls k = Some v.
Proof. intros H. destruct cls; simpl in *. by rewrite H. Qed.

Lemma new_type_own name base namespace k v :
  namespace !! k = Some v ->
  __dict__ (new_type name base namespace) !! k = Some v.
Proof. intros H. simpl. by apply lookup_union_Some_l. Qed.

Lemma class_getattr_inherited name base namespace k :
  namespace !! k = None ->
  k <> "__module__" -> k <> "__doc__" ->
  class_getattr (new_type name base namespace) k = class_getattr base k.
Proof.
  intros H Hm Hdoc. simpl. rewrite lookup_union_r by done.
  by rewrite lookup_insert_ne, lookup_singleton_ne.
Qed.

(** When the base class defines its own [strategy], the new method is the
    base decision followed by the wrapper. *)
Lemma strategy_defined strategy_wrapper PlayerClass self opponent :
  defines_strategy PlayerClass ->
  strategy strategy_wrapper PlayerClass self opponent
  = (call_strategy PlayerClass self opponent
       ≫= strategy_wrapper self opponent).
Proof.
  intros [v Hv]. unfold strategy, call_strategy, call_strategy1, call_strategy2.
  rewrite Hv, (class_getattr_own _ _ _ Hv). by destruct v.
Qed.

(** When it does not, the new method raises [KeyError] before anything
    else happens. *)
Lemma strategy_undefined strategy_wrapper PlayerClass self opponent w :
  __dict__ PlayerClass !! "strategy" = None ->
  strategy strategy_wrapper PlayerClass self opponent w = (Raise KeyError, w).
Proof. intros H. unfold strategy. by rewrite H. Qed.

(** The class [cls] that [decorate] returned for [PlayerClass]. *)
Section Decorated.
Context (strategy_wrapper : Wrapper) (name_prefix : option string).
Context (PlayerClass cls : PyClass).
Hypothesis Hdecorated :
  decorate strategy_wrapper name_prefix PlayerClass = Ok cls.

Lemma decorate_inv :
  exists new_class_name name,
    cls = new_type new_class_name PlayerClass
            {[ "name" := name;
               "strategy" := VFunction (strategy strategy_wrapper PlayerClass) ]}.
Proof.
  revert Hdecorated. unfold decorate. intros H.
  destruct (class_getattr PlayerClass "name") as [v|]; [|discriminate].
  destruct (truthy name_prefix).
  - destruct v; try discriminate. injection H as <-. eauto.
  - injection H as <-. eauto.
Qed.

Lemma decorate_strategy_entry :
  __dict__ cls !! "strategy"
  = Some (VFunction (strategy strategy_wrapper PlayerClass)).
Proof.
  destruct decorate_inv as (n & v & ->). apply new_type_own.
  by rewrite lookup_insert_ne, lookup_singleton_eq.
Qed.

Lemma decorate_defines_strategy : defines_strategy cls.
Proof. eexists. apply decorate_strategy_entry. Qed.

(** A call of [strategy] on an instance of the decorated class runs the
    method that [decorate] defined. *)
Lemma call_strategy_decorated self opponent :
  call_strategy cls self opponent
  = strategy strategy_wrapper PlayerClass self opponent.
Proof.
  unfold call_strategy.
  by rewrite (class_getattr_own _ _ _ decorate_strategy_entry).
Qed.

Lemma decorated_call self opponent :
  defines_strategy PlayerClass ->
  call_strategy cls self opponent
  = (call_strategy PlayerClass self opponent
       ≫= strategy_wrapper self opponent).
Proof.
  intros Hd. rewrite call_strategy_decorated. by apply strategy_defined.
Qed.

End Decorated.

Arguments decorate_defines_strategy {_ _ _ _} _.
Arguments call_strategy_decorated {_ _ _ _} _ _ _.
Arguments decorated_call {_ _ _ _} _ _ _ _.

(** A class derived from a base without a [strategy] of its own raises
    [KeyError] at every decision, and so does every class derived from a
    class whose decisions raise. *)
Lemma decorated_without_own_strategy strategy_wrapper name_prefix
    PlayerClass cls :
  decorate strategy_wrapper name_prefix PlayerClass = Ok cls ->
  __dict__ PlayerClass !! "strategy" = None ->
  forall self opponent w,
    call_strategy cls self opponent w = (Raise KeyError, w).
Proof.
  intros Hcls Hnone self opponent w. rewrite (call_strategy_decorated Hcls).
  by apply strategy_undefined.
Qed.

Lemma decorated_over_raising strategy_wrapper name_prefix PlayerClass cls e :
  decorate strategy_wrapper name_prefix PlayerClass = Ok cls ->
  defines_strategy PlayerClass ->
  (forall self opponent w,
     call_strategy PlayerClass self opponent w = (Raise e, w)) ->
  forall self opponent w,
    call_strategy cls self opponent w = (Raise e, w).
Proof.
  intros Hcls Hd Hb self opponent w.
  rewrite (decorated_call Hcls self opponent Hd).
  unfold mbind, M_bind, bind. by rewrite Hb.
Qed.

Lemma CooperatorChild_cooperates self opponent w :
  call_strategy CooperatorChild self opponent w = (Ok C, w).
Proof. reflexivity. Qed.

Lemma Cooperator_always_plays : always_plays C Cooperator.
Proof. split; [by eexists | done]. Qed.

Lemma Defector_always_plays : always_plays D Defector.
Proof. split; [by eexists | done]. Qed.

Lemma string_length_app (s1 s2 : string) :
  String.length (s1 +:+ s2) = (String.length s1 + String.length s2)%nat.
Proof. induction s1 as [|c s1 IH]; simpl; [done | by rewrite IH]. Qed.

Lemma prefixed_ne (prefix s : string) : prefix <> "" -> prefix +:+ s <> s.
Proof.
  intros Hp H. apply (f_equal String.length) in H.
  rewrite string_length_app in H. destruct prefix; [done | simpl in H; lia].
Qed.

Lemma prefixed_sep_ne (prefix sep s : string) :
  prefix <> "" -> prefix +:+ sep +:+ s <> s.
Proof.
  intros Hp H. apply (f_equal String.length) in H.
  rewrite !string_length_app in H. destruct prefix; [done | simpl in H; lia].
Qed.

Lemma truthy_nonempty (prefix : string) : prefix <> "" -> truthy (Some prefix) = true.
Proof.
  intros H. simpl. destruct (String.eqb_spec prefix ""); [done | done].
Qed.

(** * The transformer factory *)

Lemma class_getattr_none_own cls k :
  class_getattr cls k = None -> __dict__ cls !! k = None.
Proof. destruct cls; simpl. by destruct (_ !! k). Qed.

(** C2, as amended: when the base class has no [strategy] at all, neither
    in its own namespace nor inherited (and has a display name), applying a
    transformation raises nothing and returns the derived class; the
    failure comes at decision time: every [strategy] call on an instance of
    the derived class raises [KeyError], leaves the store as it was and
    never reaches the wrapper, so the derived agent is not a pass-through
    either. *)
Theorem missing_strategy_fails_at_decision
    (strategy_wrapper : Wrapper) (name_prefix : option string)
    (PlayerClass : PyClass) (name : string) :
  class_getattr PlayerClass "strategy" = None ->
  class_getattr PlayerClass "name" = Some (VStr name) ->
  exists cls,
    decorate strategy_wrapper name_prefix PlayerClass = Ok cls /\
    forall self opponent w,
      call_strategy cls self opponent w = (Raise KeyError, w).
Proof.
  intros Hs Hn. apply class_getattr_none_own in Hs.
  assert (exists cls, decorate strategy_wrapper name_prefix PlayerClass = Ok cls)
    as [cls Hcls].
  { unfold decorate. rewrite Hn. destruct (truthy name_prefix); eauto. }
  exists cls. split; [done|]. intros self opponent w.
  rewrite (call_strategy_decorated Hcls).
  by apply strategy_undefined.
Qed.

Lemma missing_strategy_fails_at_decision_witness :
  exists cls,
    decorate history_track_wrapper (Some "HistoryTracking") NoStrategy = Ok cls /\
    forall self opponent w,
      call_strategy cls self opponent w = (Raise KeyError, w).
Proof.
  apply (missing_strategy_fails_at_decision history_track_wrapper
           (Some "HistoryTracking") NoStrategy "No Strategy"); reflexivity.
Defined.

(** C2, as stated, fails: applying [FlipTransformer] to a class without any
    [strategy] returns a class, and the error is raised by the first
    decision. *)
Lemma transformer_accepts_class_without_strategy :
  exists cls,
    FlipTransformer NoStrategy = Ok cls /\
    call_strategy cls 0%nat 1%nat (empty_world 0)
    = (Raise KeyError, empty_world 0).
Proof. eexists. split; reflexivity. Qed.

(** C8, as amended: for a non-empty prefix and a base class with a display
    name, [decorate] returns a subclass of the base whose [__name__] is the
    prefix put directly before the base's, whose [name] is the prefix, one
    space and the base's name, whose [strategy] is the wrapped method, whose
    [__module__] is the module of the transformers and whose [__doc__] is
    [None]; every attribute other than these four resolves as on the base,
    and both names differ from the base's. *)
Theorem decorate_frame
    (strategy_wrapper : Wrapper) (prefix : string)
    (PlayerClass : PyClass) (name : string) :
  prefix <> "" ->
  class_getattr PlayerClass "name" = Some (VStr name) ->
  exists cls,
    decorate strategy_wrapper (Some prefix) PlayerClass = Ok cls /\
    __base__ cls = Some PlayerClass /\
    __name__ cls = prefix +:+ __name__ PlayerClass /\
    class_getattr cls "name" = Some (VStr (prefix +:+ " " +:+ name)) /\
    class_getattr cls "strategy"
    = Some (VFunction (strategy strategy_wrapper PlayerClass)) /\
    class_getattr cls "__module__" = Some (VStr module_name) /\
    class_getattr cls "__doc__" = Some VNone /\
    (forall k, k <> "name" -> k <> "strategy" ->
               k <> "__module__" -> k <> "__doc__" ->
               class_getattr cls k = class_getattr PlayerClass k) /\
    __name__ cls <> __name__ PlayerClass /\
    class_getattr cls "name" <> class_getattr PlayerClass "name".
Proof.
  intros Hp Hn. eexists. split.
  { unfold decorate. rewrite Hn, (truthy_nonempty _ Hp). reflexivity. }
  simpl default.
  split; [reflexivity|]. split; [reflexivity|].
  assert (forall v, class_getattr
            (new_type (prefix +:+ __name__ PlayerClass) PlayerClass
               {[ "name" := v;
                  "strategy" := VFunction (strategy strategy_wrapper PlayerClass) ]})
            "name" = Some v) as Hname.
  { intros v. apply class_getattr_own, new_type_own, lookup_insert_eq. }
  split; [apply Hname|].
  split; [apply class_getattr_own, new_type_own;
          by rewrite lookup_insert_ne, lookup_singleton_eq|].
  split; [by apply class_getattr_own|]. split; [by apply class_getattr_own|].
  split; [|split].
  - intros k Hk1 Hk2 Hk3 Hk4. apply class_getattr_inherited; [|done..].
    by rewrite lookup_insert_ne, lookup_singleton_ne.
  - simpl. by apply prefixed_ne.
  - rewrite Hn, Hname. intros [=H]. revert H. by apply prefixed_sep_ne.
Qed.

Lemma decorate_frame_witness :
  exists cls,
    decorate flip_wrapper (Some "Flipped") Cooperator = Ok cls /\
    __base__ cls = Some Cooperator /\
    __name__ cls = "FlippedCooperator" /\
    class_getattr cls "name" = Some (VStr "Flipped Cooperator") /\
    class_getattr cls "strategy"
    = Some (VFunction (strategy flip_wrapper Cooperator)) /\
    class_getattr cls "__module__" = Some (VStr module_name) /\
    class_getattr cls "__doc__" = Some VNone /\
    (forall k, k <> "name" -> k <> "strategy" ->
               k <> "__module__" -> k <> "__doc__" ->
               class_getattr cls k = class_getattr Cooperator k) /\
    __name__ cls <> __name__ Cooperator /\
    class_getattr cls "name" <> class_getattr Cooperator "name".
Proof.
  apply (decorate_frame flip_wrapper "Flipped" Cooperator "Cooperator");
    [discriminate | reflexivity].
Defined.

(** C8, as stated, fails: the class derived from a class with a docstring
    has [None] for its [__doc__] and the transformers' module for its
    [__module__], so two attributes besides the decision and the names do
    not resolve as on the base. *)
Lemma decorate_rewrites_doc_and_module :
  exists cls,
    FlipTransformer DocumentedCooperator = Ok cls /\
    class_getattr DocumentedCooperator "__doc__"
    = Some (VStr "A player who only ever cooperates.") /\
    class_getattr cls "__doc__" = Some VNone /\
    class_getattr DocumentedCooperator "__module__"
    = Some (VStr "axelrod.strategies.cooperator") /\
    class_getattr cls "__module__"
    = Some (VStr "axelrod.strategy_transformers").
Proof. eexists. repeat split; reflexivity. Qed.

(** * The stateless wrappers *)

(** Flipping over base classes that define [strategy] in their own
    namespace: when the base always plays Cooperate, every decision of the
    flipped class is Defect; and every decision of the twice-flipped class
    is the decision of the base class, result and store alike. *)
Theorem flip_constant_and_involutive (base flipped flipped2 : PyClass) :
  defines_strategy base ->
  FlipTransformer base = Ok flipped ->
  FlipTransformer flipped = Ok flipped2 ->
  (always_plays C base ->
   forall self opponent w, call_strategy flipped self opponent w = (Ok D, w)) /\
  (forall self opponent w,
     call_strategy flipped2 self opponent w = call_strategy base self opponent w).
Proof.
  intros Hd H1 H2. split.
  - intros [_ Hc] self opponent w.
    rewrite (decorated_call H1 self opponent Hd).
    by rewrite (bind_ok (Hc self opponent w)).
  - intros self opponent w.
    rewrite (decorated_call H2 self opponent (decorate_defines_strategy H1)).
    rewrite (decorated_call H1 self opponent Hd).
    unfold mbind, M_bind, bind, flip_wrapper, mret, M_ret, ret.
    destruct (call_strategy base self opponent w) as [[a|e] w']; [|done].
    by rewrite flip_action_involutive.
Qed.

Lemma flip_constant_and_involutive_witness :
  exists flipped flipped2,
    FlipTransformer Cooperator = Ok flipped /\
    FlipTransformer flipped = Ok flipped2 /\
    (forall self opponent w,
       call_strategy flipped self opponent w = (Ok D, w)) /\
    (forall self opponent w,
       call_strategy flipped2 self opponent w
       = call_strategy Cooperator self opponent w).
Proof.
  eexists _, _. split; [reflexivity|]. split; [reflexivity|].
  destruct (flip_constant_and_involutive Cooperator _ _
              (proj1 Cooperator_always_plays) eq_refl eq_refl) as [H1 H2].
  split; [exact (H1 Cooperator_always_plays) | exact H2].
Defined.

Lemma flip_without_own_strategy base flipped flipped2 :
  FlipTransformer base = Ok flipped ->
  FlipTransformer flipped = Ok flipped2 ->
  __dict__ base !! "strategy" = None ->
  (forall self opponent w,
     call_strategy flipped self opponent w = (Raise KeyError, w)) /\
  (forall self opponent w,
     call_strategy flipped2 self opponent w = (Raise KeyError, w)).
Proof.
  intros H1 H2 Hnone.
  pose proof (decorated_without_own_strategy _ _ _ _ H1 Hnone) as Hraise.
  split; [exact Hraise|].
  exact (decorated_over_raising _ _ _ _ _ H2 (decorate_defines_strategy H1)
           Hraise).
Qed.

(** C5 fails on the code for a base class that inherits its [strategy]:
    [CooperatorChild] cooperates in every decision, the flipped class is
    built without error, and every decision of the flipped class (and, the
    same way, of the twice-flipped class) raises [KeyError] instead of
    returning Defect (or the base's Cooperate). *)
Theorem flip_of_inherited_strategy_raises :
  exists flipped flipped2,
    FlipTransformer CooperatorChild = Ok flipped /\
    FlipTransformer flipped = Ok flipped2 /\
    (forall self opponent w,
       call_strategy CooperatorChild self opponent w = (Ok C, w)) /\
    (forall self opponent w,
       call_strategy flipped self opponent w = (Raise KeyError, w)) /\
    (forall self opponent w,
       call_strategy flipped2 self opponent w = (Raise KeyError, w)).
Proof.
  eexists _, _. split; [reflexivity|]. split; [reflexivity|].
  split; [exact CooperatorChild_cooperates|].
  apply (flip_without_own_strategy CooperatorChild); reflexivity.
Qed.

(** C4: whenever the sample drawn lies in [0, 1), the noisy wrapper with
    noise 0 returns the proposed action and with noise 1 returns the flipped
    proposed action; in both cases the store changes only by the draw. *)
Theorem noisy_wrapper_extremes (player opponent : loc) (action : Action)
    (w : World) :
  (0 <= rng_samples w (rng_drawn w))%Q ->
  (rng_samples w (rng_drawn w) < 1)%Q ->
  noisy_wrapper player opponent action 0 w
  = (Ok action, world_of (random_random w)) /\
  noisy_wrapper player opponent action 1 w
  = (Ok (flip_action action), world_of (random_random w)).
Proof.
  intros H0 H1. unfold noisy_wrapper, mbind, M_bind, bind. simpl. split.
  - destruct (Qlt_le_dec _ 0) as [Hlt|_]; [|done].
    by apply Qle_not_lt in H0.
  - destruct (Qlt_le_dec _ 1) as [_|Hle]; [done|].
    by apply Qlt_not_le in H1.
Qed.

Lemma noisy_wrapper_extremes_witness :
  noisy_wrapper 0%nat 1%nat C 0 (empty_world (1 # 2))
  = (Ok C, world_of (random_random (empty_world (1 # 2)))) /\
  noisy_wrapper 0%nat 1%nat C 1 (empty_world (1 # 2))
  = (Ok D, world_of (random_random (empty_world (1 # 2)))).
Proof.
  apply (noisy_wrapper_extremes 0%nat 1%nat C (empty_world (1 # 2)));
    vm_compute; [discriminate | reflexivity].
Defined.

(** * The sequence wrappers *)

Lemma getitem_lookup {A} (l : list A) (i : nat) (x : A) w :
  l !! i = Some x -> getitem l (Z.of_nat i) w = (Ok x, w).
Proof.
  intros H. unfold getitem. cbv zeta.
  settle_comparisons. by rewrite Nat2Z.id, H.
Qed.

Lemma getitem_head {A} (x : A) (l : list A) w : getitem (x :: l) 0 w = (Ok x, w).
Proof. apply (getitem_lookup (x :: l) 0 x). reflexivity. Qed.

Lemma getitem_last {A} (l : list A) (x : A) w :
  getitem (l ++ [x]) (-1) w = (Ok x, w).
Proof.
  unfold getitem. cbv zeta. rewrite length_app.
  change (length [x]) with 1%nat. settle_comparisons.
  replace (-1 + Z.of_nat (length l + 1))%Z with (Z.of_nat (length l)) by lia.
  rewrite Nat2Z.id, lookup_app_r, Nat.sub_diag by lia. reflexivity.
Qed.

Lemma initial_sequence_spec player opponent action initial_seq w :
  initial_sequence player opponent action initial_seq w
  = let index := length (history (get_player w player)) in
    match initial_seq !! index with
    | Some x => (Ok x, w)
    | None => (Ok action, w)
    end.
Proof.
  unfold initial_sequence, mbind, M_bind, bind, get_history. simpl.
  destruct (Nat.ltb_spec (length (history (get_player w player)))
              (length initial_seq)) as [Hlt|Hge].
  - destruct (lookup_lt_is_Some_2 _ _ Hlt) as [x Hx].
    rewrite Hx. by apply getitem_lookup.
  - by rewrite (lookup_ge_None_2 _ _ Hge).
Qed.

Lemma final_sequence_spec player opponent action seq w :
  final_sequence player opponent action seq w
  = let L := tournament_length (get_player w player) in
    if (L <? 0)%Z then (Ok action, w)
    else
      let index := (L - Z.of_nat (length (history (get_player w player))))%Z in
      if (index <=? Z.of_nat (length seq))%Z
      then getitem seq (- index) w
      else (Ok action, w).
Proof.
  unfold final_sequence, mbind, M_bind, bind, get_tournament_length,
    get_history. simpl.
  destruct (tournament_length (get_player w player) <? 0)%Z; [done|].
  by destruct (_ <=? _)%Z.
Qed.

(** C10: when the match length is known and the player has already played
    that many rounds, the final-sequence wrapper evaluates [seq[0]]: it
    returns the first element of a non-empty [seq] (and raises [IndexError]
    as [seq[0]] does on an empty one), whatever the proposed action. *)
Theorem final_sequence_at_match_end (player opponent : loc) (action : Action)
    (seq : list Action) (w : World) :
  (0 <= tournament_length (get_player w player))%Z ->
  Z.of_nat (length (history (get_player w player)))
  = tournament_length (get_player w player) ->
  final_sequence player opponent action seq w = getitem seq 0 w /\
  (forall x rest, seq = x :: rest ->
     final_sequence player opponent action seq w = (Ok x, w)) /\
  (seq = [] ->
     final_sequence player opponent action seq w = (Raise IndexError, w)).
Proof.
  intros HL Hlen.
  assert (final_sequence player opponent action seq w = getitem seq 0 w) as H.
  { rewrite final_sequence_spec. simpl. rewrite Hlen, Z.sub_diag.
    by settle_comparisons. }
  split; [done|]. split.
  - intros x rest ->. rewrite H. apply getitem_head.
  - intros ->. by rewrite H.
Qed.

Lemma final_sequence_at_match_end_witness :
  final_sequence 0%nat 1%nat C [D; C] (world_with 0 [C; C] 2)
  = getitem [D; C] 0 (world_with 0 [C; C] 2) /\
  (forall x rest, [D; C] = x :: rest ->
     final_sequence 0%nat 1%nat C [D; C] (world_with 0 [C; C] 2)
     = (Ok x, world_with 0 [C; C] 2)) /\
  ([D; C] = [] ->
     final_sequence 0%nat 1%nat C [D; C] (world_with 0 [C; C] 2)
     = (Raise IndexError, world_with 0 [C; C] 2)).
Proof.
  apply (final_sequence_at_match_end 0%nat 1%nat C [D; C]
           (world_with 0 [C; C] 2)); vm_compute; [discriminate | reflexivity].
Defined.

(** [FinalTransformer([D])] over a base class that always plays Cooperate
    and defines [strategy] in its own namespace: with match length 5, a
    decision after at most 3 rounds played is Cooperate and the decision
    after 4 rounds played is Defect; with a negative match length every
    decision is Cooperate.  No decision changes the store. *)
Theorem final_defect_over_cooperator (base cls : PyClass)
    (self opponent : loc) (w : World) :
  always_plays C base ->
  FinalTransformer (Some [D]) base = Ok cls ->
  (tournament_length (get_player w self) = 5%Z ->
   (length (history (get_player w self)) <= 3)%nat ->
   call_strategy cls self opponent w = (Ok C, w)) /\
  (tournament_length (get_player w self) = 5%Z ->
   length (history (get_player w self)) = 4%nat ->
   call_strategy cls self opponent w = (Ok D, w)) /\
  ((tournament_length (get_player w self) < 0)%Z ->
   call_strategy cls self opponent w = (Ok C, w)).
Proof.
  intros [Hd Hc] Hcls.
  assert (call_strategy cls self opponent w
          = final_sequence self opponent C [D] w) as ->.
  { rewrite (decorated_call Hcls self opponent Hd).
    by rewrite (bind_ok (Hc self opponent w)). }
  rewrite final_sequence_spec. cbv zeta. change (length [D]) with 1%nat.
  split; [|split].
  - intros -> Hlen. by settle_comparisons.
  - intros -> ->. reflexivity.
  - intros HL. by settle_comparisons.
Qed.

Lemma final_defect_over_cooperator_witness :
  exists cls,
    FinalTransformer (Some [D]) Cooperator = Ok cls /\
    call_strategy cls 0%nat 1%nat (world_with 0 [C; C; C] 5)
    = (Ok C, world_with 0 [C; C; C] 5) /\
    call_strategy cls 0%nat 1%nat (world_with 0 [C; C; C; C] 5)
    = (Ok D, world_with 0 [C; C; C; C] 5) /\
    call_strategy cls 0%nat 1%nat (world_with 0 [C; C] (-1))
    = (Ok C, world_with 0 [C; C] (-1)).
Proof.
  eexists. split; [reflexivity|].
  split; [|split].
  - refine (proj1 (final_defect_over_cooperator Cooperator _ 0 1
                     (world_with 0 [C; C; C] 5)
                     Cooperator_always_plays eq_refl) _ _).
    + reflexivity.
    + vm_compute. lia.
  - refine (proj1 (proj2 (final_defect_over_cooperator Cooperator _ 0 1
                            (world_with 0 [C; C; C; C] 5)
                            Cooperator_always_plays eq_refl)) _ _);
      reflexivity.
  - refine (proj2 (proj2 (final_defect_over_cooperator Cooperator _ 0 1
                            (world_with 0 [C; C] (-1))
                            Cooperator_always_plays eq_refl)) _).
    vm_compute. reflexivity.
Defined.

(** C6 fails on the code for a base class that inherits its [strategy]:
    [CooperatorChild] cooperates in every decision, [FinalTransformer([D])]
    builds the derived class without error, and every decision of that
    class raises [KeyError], whatever the match length and the round,
    instead of returning Cooperate or Defect. *)
Theorem final_of_inherited_strategy_raises :
  exists cls,
    FinalTransformer (Some [D]) CooperatorChild = Ok cls /\
    (forall self opponent w,
       call_strategy CooperatorChild self opponent w = (Ok C, w)) /\
    (forall self opponent w,
       call_strategy cls self opponent w = (Raise KeyError, w)).
Proof.
  eexists. split; [reflexivity|]. split; [exact CooperatorChild_cooperates|].
  apply (decorated_without_own_strategy
           (fun player opponent action =>
              final_sequence player opponent action [D])
           None CooperatorChild); reflexivity.
Qed.

Lemma initial_transformer_call seq base cls self opponent w a w1 :
  defines_strategy base ->
  InitialTransformer seq base = Ok cls ->
  call_strategy base self opponent w = (Ok a, w1) ->
  call_strategy cls self opponent w
  = match seq_or_default seq !! length (history (get_player w1 self)) with
    | Some x => (Ok x, w1)
    | None => (Ok a, w1)
    end.
Proof.
  intros Hd Hcls Hb.
  rewrite (decorated_call Hcls self opponent Hd).
  rewrite (bind_ok Hb). apply initial_sequence_spec.
Qed.

(** C7, as amended: let [seq'] be [seq] when it is non-empty and
    [[D; D; D]] when it is empty or absent.  For the class that
    [InitialTransformer(seq)] derives from a base class that defines
    [strategy] in its own namespace, a decision for which the base proposes
    an action returns
    [seq'[index]] when the number [index] of rounds already played is below
    [len(seq')], and the proposed action otherwise; with
    [seq = [D; D; D]] over a base that always plays Cooperate that is
    Defect for the first three rounds and Cooperate from then on. *)
Theorem initial_sequence_overrides_then_passes
    (seq : option (list Action)) (base cls : PyClass)
    (self opponent : loc) (w w1 : World) (a : Action) :
  defines_strategy base ->
  InitialTransformer seq base = Ok cls ->
  call_strategy base self opponent w = (Ok a, w1) ->
  let seq' := match seq with Some (x :: l) => x :: l | _ => [D; D; D] end in
  let index := length (history (get_player w1 self)) in
  (index < length seq' ->
   exists x, seq' !! index = Some x /\
             call_strategy cls self opponent w = (Ok x, w1)) /\
  (length seq' <= index ->
   call_strategy cls self opponent w = (Ok a, w1)) /\
  (always_plays C base -> seq = Some [D; D; D] ->
   call_strategy cls self opponent w
   = (Ok (if decide (index < 3) then D else C), w)).
Proof.
  intros Hd Hcls Hb seq' index.
  pose proof (initial_transformer_call _ _ _ _ _ _ _ _ Hd Hcls Hb) as H.
  assert (seq_or_default seq = seq') as Hseq by (by destruct seq as [[|]|]).
  rewrite Hseq in H. fold index in H.
  split; [|split].
  - intros Hlt. destruct (lookup_lt_is_Some_2 _ _ Hlt) as [x Hx].
    exists x. by rewrite H, Hx.
  - intros Hge. by rewrite H, (lookup_ge_None_2 _ _ Hge).
  - intros [_ Hc] ->. rewrite Hc in Hb. injection Hb as <- <-.
    rewrite H. subst seq'. case_decide as Hi.
    + by destruct index as [|[|[|?]]]; [..|lia].
    + rewrite lookup_ge_None_2; [done | simpl; lia].
Qed.

Lemma initial_sequence_overrides_then_passes_witness :
  exists cls,
    InitialTransformer (Some [D; D; D]) Cooperator = Ok cls /\
    (exists x, [D; D; D] !! 1%nat = Some x /\
               call_strategy cls 0 1 (world_with 0 [D] 5)
               = (Ok x, world_with 0 [D] 5)) /\
    call_strategy cls 0 1 (world_with 0 [D; D; D; C] 5)
    = (Ok C, world_with 0 [D; D; D; C] 5) /\
    call_strategy cls 0 1 (world_with 0 [D] 5) = (Ok D, world_with 0 [D] 5).
Proof.
  eexists. split; [reflexivity|].
  split; [|split].
  - refine (proj1 (initial_sequence_overrides_then_passes
                     (Some [D; D; D]) Cooperator _ 0 1 (world_with 0 [D] 5)
                     (world_with 0 [D] 5) C
                     (proj1 Cooperator_always_plays) eq_refl eq_refl) _).
    vm_compute. lia.
  - refine (proj1 (proj2 (initial_sequence_overrides_then_passes
                            (Some [D; D; D]) Cooperator _ 0 1
                            (world_with 0 [D; D; D; C] 5)
                            (world_with 0 [D; D; D; C] 5) C
                            (proj1 Cooperator_always_plays) eq_refl eq_refl))
              _).
    vm_compute. lia.
  - refine (proj2 (proj2 (initial_sequence_overrides_then_passes
                            (Some [D; D; D]) Cooperator _ 0 1
                            (world_with 0 [D] 5) (world_with 0 [D] 5) C
                            (proj1 Cooperator_always_plays) eq_refl eq_refl))
              Cooperator_always_plays eq_refl).
Defined.

(** C7, as stated, fails for the empty sequence: no round has fewer than
    [len([]) = 0] rounds played, the base proposes Cooperate, and the
    derived class answers Defect in the first round. *)
Lemma initial_transformer_empty_sequence :
  exists cls,
    InitialTransformer (Some []) Cooperator = Ok cls /\
    length (@nil Action) <= length (history (get_player (empty_world 0) 0)) /\
    call_strategy Cooperator 0 1 (empty_world 0) = (Ok C, empty_world 0) /\
    call_strategy cls 0 1 (empty_world 0) = (Ok D, empty_world 0).
Proof. eexists. repeat split; reflexivity. Qed.

(** * The store under the match runner *)

Lemma get_player_set_player_eq p x w : get_player (set_player p x w) p = x.
Proof. unfold get_player, set_player. simpl. apply lookup_total_insert_eq. Qed.

Lemma get_player_set_player_ne p q x w :
  p <> q -> get_player (set_player p x w) q = get_player w q.
Proof.
  intros H. unfold get_player, set_player. simpl.
  by apply lookup_total_insert_ne.
Qed.

Lemma get_player_set_wrapper r x w q :
  get_player (set_wrapper r x w) q = get_player w q.
Proof. reflexivity. Qed.

Lemma set_wrapper_lookup r x w :
  r < length (wrappers w) -> wrappers (set_wrapper r x w) !! r = Some x.
Proof. intros H. simpl. by apply list_lookup_insert_eq. Qed.

Lemma set_wrapper_length r x w :
  length (wrappers (set_wrapper r x w)) = length (wrappers w).
Proof. simpl. apply length_insert. Qed.

Lemma set_wrapper_id r x w : wrappers w !! r = Some x -> set_wrapper r x w = w.
Proof.
  intros H. destruct w. unfold set_wrapper. simpl in *.
  by rewrite list_insert_id.
Qed.

Lemma update_history_eq player action w :
  update_history player action w
  = (Ok tt,
     set_player player
       {| history := history (get_player w player) ++ [action];
          tournament_length := tournament_length (get_player w player);
          _recorded_history := _recorded_history (get_player w player) |} w).
Proof. reflexivity. Qed.

(** One round of the runner, once the decision is known. *)
Lemma play_cons cls player opponent b rest w a w1 :
  call_strategy cls player opponent w = (Ok a, w1) ->
  play cls player opponent (b :: rest) w
  = (outs ← play cls player opponent rest; mret (a :: outs))
      (world_of (update_history opponent b
                   (world_of (update_history player a w1)))).
Proof.
  intros H. simpl play. by rewrite (bind_ok H).
Qed.

(** The histories after both updates of a round. *)
Lemma round_histories player opponent a b w :
  player <> opponent ->
  let w' := world_of (update_history opponent b
                        (world_of (update_history player a w))) in
  history (get_player w' player) = history (get_player w player) ++ [a] /\
  history (get_player w' opponent) = history (get_player w opponent) ++ [b] /\
  _recorded_history (get_player w' player)
  = _recorded_history (get_player w player) /\
  wrappers w' = wrappers w.
Proof.
  intros Hne w'. subst w'. rewrite !update_history_eq. unfold world_of. simpl snd.
  rewrite get_player_set_player_eq.
  rewrite !(get_player_set_player_ne opponent player) by done.
  rewrite get_player_set_player_eq.
  rewrite (get_player_set_player_ne player opponent) by done.
  done.
Qed.

(** * Retaliate until apology *)

Lemma retaliation_transformer_inv name_prefix w0 T w1 :
  RetailiateUntilApologyTransformer name_prefix w0 = (Ok T, w1) ->
  T = StrategyTransformerFactory
        (RetaliationWrapper_call (length (wrappers w0))) name_prefix /\
  length (wrappers w0) < length (wrappers w1).
Proof.
  unfold RetailiateUntilApologyTransformer, RetaliationWrapper_init.
  intros [= <- <-]. split; [done|]. simpl. rewrite length_app. simpl. lia.
Qed.

Lemma retaliation_first_round self player opponent action w :
  history (get_player w player) = [] ->
  RetaliationWrapper_call self player opponent action w = (Ok action, w).
Proof.
  intros H. unfold RetaliationWrapper_call, mbind, M_bind, bind, get_history.
  by rewrite H.
Qed.

(** After the first round, with Cooperate proposed, the wrapper answers
    with the opponent's last action; only the wrapper object may change. *)
Lemma retaliation_echoes self player opponent oh b w :
  self < length (wrappers w) ->
  history (get_player w player) <> [] ->
  history (get_player w opponent) = oh ++ [b] ->
  exists x, RetaliationWrapper_call self player opponent C w
            = (Ok b, set_wrapper self x w).
Proof.
  intros Hself Hp Ho.
  destruct (lookup_lt_is_Some_2 _ _ Hself) as [[flag] Hx].
  unfold RetaliationWrapper_call, mbind, M_bind, bind, get_history.
  destruct (history (get_player w player)) as [|a0 hp]; [done|].
  change (length (a0 :: hp) =? 0) with false. cbv beta iota.
  rewrite Ho, getitem_last.
  destruct b.
  - destruct (decide (C = D)) as [?|_]; [done|].
    unfold mret, M_ret, ret, get_is_retaliating. cbv beta iota.
    rewrite Hx. destruct flag; cbv beta iota delta [is_retaliating].
    + rewrite Ho, getitem_last. destruct (decide (C = C)) as [_|?]; [|done].
      unfold set_is_retaliating. rewrite Hx. eauto.
    + exists {| is_retaliating := false |}. by rewrite set_wrapper_id.
  - destruct (decide (D = D)) as [_|?]; [|done].
    unfold set_is_retaliating at 1. rewrite Hx.
    unfold get_is_retaliating. cbv beta iota.
    rewrite set_wrapper_lookup by done.
    cbv beta iota delta [is_retaliating].
    rewrite get_player_set_wrapper, Ho, getitem_last.
    destruct (decide (D = C)) as [?|_]; [done|]. eauto.
Qed.

(** Over a base that always plays Cooperate, a match against any opponent
    is answered with Cooperate in the first round and then with the
    opponent's previous action. *)
Lemma play_retaliation_echoes base cls self name_prefix player opponent :
  always_plays C base ->
  decorate (RetaliationWrapper_call self) name_prefix base = Ok cls ->
  player <> opponent ->
  forall opponent_actions w,
    self < length (wrappers w) ->
    length (history (get_player w player))
    = length (history (get_player w opponent)) ->
    exists w',
      play cls player opponent opponent_actions w
      = (Ok (take (length opponent_actions)
               (default C (last (history (get_player w opponent)))
                  :: opponent_actions)), w') /\
      history (get_player w' player)
      = history (get_player w player)
          ++ take (length opponent_actions)
               (default C (last (history (get_player w opponent)))
                  :: opponent_actions).
Proof.
  intros [Hd Hc] Hcls Hne opponent_actions.
  induction opponent_actions as [|b rest IH]; intros w Hself Hlen.
  { exists w. simpl. by rewrite app_nil_r. }
  set (a := default C (last (history (get_player w opponent)))).
  assert (exists x, call_strategy cls player opponent w
                    = (Ok a, set_wrapper self x w)) as [x Hcall].
  { rewrite (decorated_call Hcls player opponent Hd).
    rewrite (bind_ok (Hc player opponent w)).
    destruct (history (get_player w opponent)) as [|b0 oh] eqn:Ho
      using rev_ind.
    - destruct (lookup_lt_is_Some_2 _ _ Hself) as [x Hx]. exists x.
      rewrite set_wrapper_id by done.
      apply retaliation_first_round. by apply nil_length_inv.
    - subst a. rewrite last_snoc. simpl default.
      eapply retaliation_echoes; [done| |done].
      intros Hp. rewrite Hp, length_app in Hlen. simpl in Hlen. lia. }
  rewrite (play_cons _ _ _ _ _ _ _ _ Hcall).
  destruct (round_histories player opponent a b (set_wrapper self x w) Hne)
    as (Hhp & Hho & _ & Hwr).
  rewrite !get_player_set_wrapper in Hhp, Hho.
  destruct (IH (world_of (update_history opponent b
                  (world_of (update_history player a (set_wrapper self x w))))))
    as (w' & Hplay & Hhist).
  { rewrite Hwr, set_wrapper_length. done. }
  { rewrite Hhp, Hho, !length_app. simpl. lia. }
  exists w'. rewrite (bind_ok Hplay).
  rewrite Hho, last_snoc in *. simpl default in *. split; [done|].
  rewrite Hhist, Hhp, <- app_assoc. done.
Qed.

(** For the class that a retaliate-until-apology transformer derives from
    a base that always plays Cooperate and defines [strategy] in its own
    namespace, in any later store, an instance that starts a match against
    an opponent playing [[C; D; D; C; C]] returns [[C; C; D; D; C]], which
    the runner records as its history. *)
Theorem retaliate_until_apology_trace
    (name_prefix : option string) (base cls : PyClass) (T : Transformer)
    (w0 w1 w : World) (player opponent : loc) :
  always_plays C base ->
  RetailiateUntilApologyTransformer name_prefix w0 = (Ok T, w1) ->
  T base = Ok cls ->
  length (wrappers w1) <= length (wrappers w) ->
  player <> opponent ->
  history (get_player w player) = [] ->
  history (get_player w opponent) = [] ->
  exists w',
    play cls player opponent [C; D; D; C; C] w = (Ok [C; C; D; D; C], w') /\
    history (get_player w' player) = [C; C; D; D; C].
Proof.
  intros Hb HT Hcls Hw Hne Hp Ho.
  apply retaliation_transformer_inv in HT as [-> Hlt].
  destruct (play_retaliation_echoes base cls _ name_prefix player opponent
              Hb Hcls Hne [C; D; D; C; C] w) as (w' & Hplay & Hhist).
  { lia. }
  { by rewrite Hp, Ho. }
  exists w'. rewrite Hplay, Hhist, Hp, Ho. done.
Qed.

Lemma retaliate_until_apology_trace_witness :
  exists T w1 cls w',
    RetailiateUntilApologyTransformer (Some "RUA") (empty_world 0) = (Ok T, w1) /\
    T Cooperator = Ok cls /\
    play cls 0 1 [C; D; D; C; C] w1 = (Ok [C; C; D; D; C], w') /\
    history (get_player w' 0) = [C; C; D; D; C].
Proof.
  destruct (retaliate_until_apology_trace (Some "RUA") Cooperator _ _
              (empty_world 0) _ _ 0 1
              Cooperator_always_plays eq_refl eq_refl (le_n _)
              (O_S 0) eq_refl eq_refl) as (w' & Hplay & Hhist).
  eexists _, _, _, w'. split; [reflexivity|]. split; [reflexivity|].
  split; [exact Hplay | exact Hhist].
Defined.

(** C3 fails on the code for a base class that inherits its [strategy]:
    [CooperatorChild] cooperates in every decision, the transformer builds
    the derived class without error, and the match against an opponent
    playing [[C; D; D; C; C]] stops in its first round with [KeyError]
    instead of producing [[C; C; D; D; C]]. *)
Theorem retaliation_of_inherited_strategy_raises :
  exists T w1 cls,
    RetailiateUntilApologyTransformer (Some "RUA") (empty_world 0) = (Ok T, w1) /\
    T CooperatorChild = Ok cls /\
    (forall self opponent w,
       call_strategy CooperatorChild self opponent w = (Ok C, w)) /\
    play cls 0 1 [C; D; D; C; C] w1 = (Raise KeyError, w1).
Proof.
  eexists _, _, _. split; [reflexivity|]. split; [reflexivity|].
  split; [exact CooperatorChild_cooperates|]. vm_compute. reflexivity.
Qed.

(** C1 fails on the code: every instance of a class derived by one
    retaliate-until-apology transformer uses the single wrapper object the
    transformer created.  With two matches under way, the second instance
    alone would play its baseline Defect (its opponent cooperated, the flag
    is off); a decision of the first instance, whose opponent defected,
    turns the flag on without touching the second match's players, and the
    second instance then answers Cooperate instead of Defect. *)
Theorem retaliation_state_is_shared :
  exists T w1 cls,
    RetailiateUntilApologyTransformer (Some "RUA") (empty_world 0) = (Ok T, w1) /\
    T Defector = Ok cls /\
    let w := two_matches w1 in
    length (wrappers w) = 1 /\
    is_retaliating <$> wrappers w !! 0 = Some false /\
    result_of (call_strategy cls 2 3 w) = Ok D /\
    let w' := world_of (call_strategy cls 0 1 w) in
    result_of (call_strategy cls 0 1 w) = Ok D /\
    get_player w' 2 = get_player w 2 /\
    get_player w' 3 = get_player w 3 /\
    is_retaliating <$> wrappers w' !! 0 = Some true /\
    result_of (call_strategy cls 2 3 w') = Ok C.
Proof.
  eexists _, _, _. split; [reflexivity|]. split; [reflexivity|].
  vm_compute. repeat split.
Qed.

(** * History tracking *)

(** The wrapper returns the action it was given and appends it to the
    player's recorded history, which it creates when absent. *)
Lemma history_track_wrapper_spec player opponent action w :
  history_track_wrapper player opponent action w
  = (Ok action,
     set_player player
       {| history := history (get_player w player);
          tournament_length := tournament_length (get_player w player);
          _recorded_history :=
            Some (default [] (_recorded_history (get_player w player))
                    ++ [action]) |} w).
Proof.
  unfold history_track_wrapper, try_except, mbind, M_bind, bind,
    get_recorded_history, set_recorded_history.
  destruct (_recorded_history (get_player w player)) as [l|]; [done|].
  by destruct (decide (AttributeError = AttributeError)).
Qed.

Lemma tracked_call base cls player opponent w a w1 :
  defines_strategy base ->
  TrackHistoryTransformer base = Ok cls ->
  call_strategy base player opponent w = (Ok a, w1) ->
  call_strategy cls player opponent w
  = history_track_wrapper player opponent a w1.
Proof.
  intros Hd Hcls Hb. rewrite (decorated_call Hcls player opponent Hd).
  by rewrite (bind_ok Hb).
Qed.

(** One decision of a history-tracking instance. *)
Lemma tracked_call_log base cls player opponent w a w1 :
  defines_strategy base ->
  TrackHistoryTransformer base = Ok cls ->
  call_strategy base player opponent w = (Ok a, w1) ->
  exists w2,
    call_strategy cls player opponent w = (Ok a, w2) /\
    _recorded_history (get_player w2 player)
    = Some (default [] (_recorded_history (get_player w1 player)) ++ [a]).
Proof.
  intros Hd Hcls Hb. eexists. split.
  - rewrite (tracked_call _ _ _ _ _ _ _ Hd Hcls Hb).
    apply history_track_wrapper_spec.
  - by rewrite get_player_set_player_eq.
Qed.






(** * Further properties of the factory *)

(** X1: what the method that [decorate] installs does, by the entry
    [strategy] of the base class's own namespace.  A static method there is
    called with the opponent alone, a plain function with the player and the
    opponent, and the proposed action goes to the wrapper in the store the
    base left; when that base strategy raises, the same exception comes out,
    in the same store, and the wrapper is not run.  When the own namespace
    has no [strategy], also when the class inherits one, the method raises
    [KeyError] and runs neither the inherited strategy nor the wrapper. *)
Theorem decorated_decision_composes
    (strategy_wrapper : Wrapper) (name_prefix : option string)
    (PlayerClass cls : PyClass) (self opponent : loc) (w : World) :
  decorate strategy_wrapper name_prefix PlayerClass = Ok cls ->
  (forall f, __dict__ PlayerClass !! "strategy" = Some (VStaticMethod f) ->
     call_strategy cls self opponent w
     = (f opponent ≫= strategy_wrapper self opponent) w) /\
  (forall f, __dict__ PlayerClass !! "strategy" = Some (VFunction f) ->
     call_strategy cls self opponent w
     = (f self opponent ≫= strategy_wrapper self opponent) w) /\
  (defines_strategy PlayerClass ->
   forall e w1,
     call_strategy PlayerClass self opponent w = (Raise e, w1) ->
     call_strategy cls self opponent w = (Raise e, w1)) /\
  (__dict__ PlayerClass !! "strategy" = None ->
   call_strategy cls self opponent w = (Raise KeyError, w)).
Proof.
  intros Hcls. split; [|split; [|split]].
  - intros f Hf.
    rewrite (decorated_call Hcls self opponent (ex_intro _ _ Hf)).
    unfold call_strategy. by rewrite (class_getattr_own _ _ _ Hf).
  - intros f Hf.
    rewrite (decorated_call Hcls self opponent (ex_intro _ _ Hf)).
    unfold call_strategy. by rewrite (class_getattr_own _ _ _ Hf).
  - intros Hd e w1 Hb. rewrite (decorated_call Hcls self opponent Hd).
    unfold mbind, M_bind, bind. by rewrite Hb.
  - intros Hnone. rewrite (call_strategy_decorated Hcls).
    by apply strategy_undefined.
Qed.

Lemma decorated_decision_composes_witness :
  exists cls child,
    FlipTransformer Cooperator = Ok cls /\
    call_strategy cls 0 1 (empty_world 0)
    = (mret C ≫= flip_wrapper 0 1) (empty_world 0) /\
    FlipTransformer CooperatorChild = Ok child /\
    call_strategy child 0 1 (empty_world 0) = (Raise KeyError, empty_world 0).
Proof.
  eexists _, _. split; [reflexivity|]. split; [|split; [reflexivity|]].
  - exact (proj1 (decorated_decision_composes flip_wrapper (Some "Flipped")
                    Cooperator _ 0 1 (empty_world 0) eq_refl)
             (fun _ => mret C) eq_refl).
  - exact (proj2 (proj2 (proj2
             (decorated_decision_composes flip_wrapper (Some "Flipped")
                CooperatorChild _ 0 1 (empty_world 0) eq_refl))) eq_refl).
Defined.

(** X2: without a prefix ([None] or the empty string) [decorate] keeps the
    base's [__name__] and its [name], whatever value that is; on the new
    class only [strategy], [__module__] and [__doc__] resolve differently
    from the base, the last two to the transformers' module and [None]. *)
Theorem decorate_without_prefix
    (strategy_wrapper : Wrapper) (name_prefix : option string)
    (PlayerClass : PyClass) (name : Value) :
  name_prefix = None \/ name_prefix = Some "" ->
  class_getattr PlayerClass "name" = Some name ->
  exists cls,
    decorate strategy_wrapper name_prefix PlayerClass = Ok cls /\
    __name__ cls = __name__ PlayerClass /\
    class_getattr cls "__module__" = Some (VStr module_name) /\
    class_getattr cls "__doc__" = Some VNone /\
    (forall k, k <> "strategy" -> k <> "__module__" -> k <> "__doc__" ->
               class_getattr cls k = class_getattr PlayerClass k).
Proof.
  intros Hp Hn.
  assert (truthy name_prefix = false) as Ht by (by destruct Hp as [-> | ->]).
  eexists. split.
  { unfold decorate. rewrite Hn, Ht. reflexivity. }
  split; [reflexivity|].
  split; [by apply class_getattr_own|]. split; [by apply class_getattr_own|].
  intros k Hk Hm Hdoc.
  destruct (decide (k = "name")) as [-> | Hk'].
  - rewrite Hn. apply class_getattr_own, new_type_own, lookup_insert_eq.
  - apply class_getattr_inherited; [|done..].
    by rewrite lookup_insert_ne, lookup_singleton_ne.
Qed.

Lemma decorate_without_prefix_witness :
  exists cls,
    InitialTransformer (Some [D]) Cooperator = Ok cls /\
    __name__ cls = "Cooperator" /\
    class_getattr cls "__module__" = Some (VStr module_name) /\
    class_getattr cls "__doc__" = Some VNone /\
    (forall k, k <> "strategy" -> k <> "__module__" -> k <> "__doc__" ->
               class_getattr cls k = class_getattr Cooperator k).
Proof.
  apply (decorate_without_prefix
           (fun player opponent action =>
              initial_sequence player opponent action [D])
           None Cooperator (VStr "Cooperator"));
    [by left | reflexivity].
Defined.

(** X3: [decorate] returns a class exactly when the base has a [name]
    somewhere in its hierarchy and, if the prefix is non-empty, that name is
    a string; neither the wrapper nor the presence of a [strategy] matters.
    A missing [name] is an [AttributeError], a name that is not a string
    under a non-empty prefix a [TypeError]. *)
Theorem decorate_succeeds_iff
    (strategy_wrapper : Wrapper) (name_prefix : option string)
    (PlayerClass : PyClass) :
  ((exists cls, decorate strategy_wrapper name_prefix PlayerClass = Ok cls) <->
   (exists name, class_getattr PlayerClass "name" = Some name /\
                 (truthy name_prefix = true -> exists s, name = VStr s))) /\
  (forall e, decorate strategy_wrapper name_prefix PlayerClass = Raise e ->
     (e = AttributeError /\ class_getattr PlayerClass "name" = None) \/
     (e = TypeError /\ truthy name_prefix = true /\
      exists name, class_getattr PlayerClass "name" = Some name /\
                   forall s, name <> VStr s)).
Proof.
  unfold decorate.
  destruct (class_getattr PlayerClass "name") as [v|]; cycle 1.
  { split.
    - split; [by intros [? ?] | by intros (? & ? & ?)].
    - intros e [= <-]. by left. }
  destruct (truthy name_prefix) eqn:Ht.
  - assert ((exists s, v = VStr s) \/ (forall s, v <> VStr s)) as [[s ->]|Hv]
      by (destruct v; eauto).
    + split; [|done]. split; intros _; eauto.
    + destruct v as [s| | | |]; [by destruct (Hv s)|..].
      all: split; [split; [by intros [? ?]|] | intros e [= <-]; right; eauto 10].
      all: intros (name & [= <-] & H); by destruct (H eq_refl).
  - split; [|done]. split; intros _; [|by eauto].
    exists v. by split.
Qed.

Lemma decorate_prefixed strategy_wrapper prefix PlayerClass name :
  prefix <> "" ->
  class_getattr PlayerClass "name" = Some (VStr name) ->
  decorate strategy_wrapper (Some prefix) PlayerClass
  = Ok (new_type (prefix +:+ __name__ PlayerClass) PlayerClass
          {[ "name" := VStr (prefix +:+ " " +:+ name);
             "strategy" := VFunction (strategy strategy_wrapper PlayerClass) ]}).
Proof.
  intros Hp Hn. unfold decorate. by rewrite Hn, (truthy_nonempty _ Hp).
Qed.

(** X4: transformations stack.  For a base class that has a string [name]
    and defines [strategy] in its own namespace, and two non-empty prefixes:
    the derived class can be transformed again; the second prefix goes in
    front of the first in both names, and a decision of the twice-derived
    class is the base decision passed through the first wrapper and then
    the second. *)
Theorem transformers_stack
    (wrapper1 wrapper2 : Wrapper) (prefix1 prefix2 : string)
    (PlayerClass : PyClass) (name : string) :
  prefix1 <> "" -> prefix2 <> "" ->
  defines_strategy PlayerClass ->
  class_getattr PlayerClass "name" = Some (VStr name) ->
  exists cls1 cls2,
    decorate wrapper1 (Some prefix1) PlayerClass = Ok cls1 /\
    decorate wrapper2 (Some prefix2) cls1 = Ok cls2 /\
    __name__ cls2 = prefix2 +:+ prefix1 +:+ __name__ PlayerClass /\
    class_getattr cls2 "name"
    = Some (VStr (prefix2 +:+ " " +:+ prefix1 +:+ " " +:+ name)) /\
    forall self opponent w,
      call_strategy cls2 self opponent w
      = ((call_strategy PlayerClass self opponent ≫= wrapper1 self opponent)
           ≫= wrapper2 self opponent) w.
Proof.
  intros Hp1 Hp2 Hd Hn.
  pose proof (decorate_prefixed wrapper1 prefix1 PlayerClass name Hp1 Hn) as H1.
  eexists _, _. split; [exact H1|].
  match type of H1 with _ = Ok ?c =>
    assert (class_getattr c "name" = Some (VStr (prefix1 +:+ " " +:+ name)))
      as Hn1 by (by apply class_getattr_own);
    pose proof (decorate_prefixed wrapper2 prefix2 c _ Hp2 Hn1) as H2
  end.
  split; [exact H2|]. split; [reflexivity|].
  split; [by apply class_getattr_own|].
  intros self opponent w.
  rewrite (decorated_call H2 self opponent (decorate_defines_strategy H1)).
  unfold mbind at 1, M_bind at 1, bind at 1.
  by rewrite (decorated_call H1 self opponent Hd).
Qed.

Lemma transformers_stack_witness :
  exists cls1 cls2,
    decorate flip_wrapper (Some "Flipped") Cooperator = Ok cls1 /\
    decorate history_track_wrapper (Some "HistoryTracking") cls1 = Ok cls2 /\
    __name__ cls2 = "HistoryTrackingFlippedCooperator" /\
    class_getattr cls2 "name"
    = Some (VStr "HistoryTracking Flipped Cooperator") /\
    forall self opponent w,
      call_strategy cls2 self opponent w
      = ((call_strategy Cooperator self opponent ≫= flip_wrapper self opponent)
           ≫= history_track_wrapper self opponent) w.
Proof.
  apply (transformers_stack flip_wrapper history_track_wrapper
           "Flipped" "HistoryTracking" Cooperator "Cooperator");
    [discriminate | discriminate | by eexists | reflexivity].
Defined.

(** X5: over a base class that defines [strategy] in its own namespace,
    the generic wrapper gives the identity transformation: every decision
    of the derived class is the decision of the base class, result or
    exception, in the same store. *)
Theorem generic_wrapper_is_identity
    (name_prefix : option string) (PlayerClass cls : PyClass)
    (self opponent : loc) (w : World) :
  defines_strategy PlayerClass ->
  StrategyTransformerFactory generic_strategy_wrapper name_prefix PlayerClass
  = Ok cls ->
  call_strategy cls self opponent w = call_strategy PlayerClass self opponent w.
Proof.
  intros Hd Hcls. rewrite (decorated_call Hcls self opponent Hd).
  unfold mbind, M_bind, bind.
  by destruct (call_strategy PlayerClass self opponent w) as [[a|e] w'].
Qed.

Lemma generic_wrapper_is_identity_witness :
  exists cls,
    StrategyTransformerFactory generic_strategy_wrapper (Some "Generic") Defector
    = Ok cls /\
    call_strategy cls 0 1 (empty_world 0)
    = call_strategy Defector 0 1 (empty_world 0).
Proof.
  eexists. split; [reflexivity|].
  apply (generic_wrapper_is_identity (Some "Generic") Defector _ 0 1
           (empty_world 0)); [by eexists | reflexivity].
Defined.

(** * Further properties of the stateless wrappers *)

(** X6: flipping and adding noise commute: for every noise level and every
    sample, the flipped noisy class and the noisy flipped class decide
    alike and leave the same store. *)
Theorem flip_and_noise_commute
    (noise : Q) (name_prefix : option string)
    (base noisy flipped_noisy flipped noisy_flipped : PyClass)
    (self opponent : loc) (w : World) :
  defines_strategy base ->
  NoisyTransformer noise name_prefix base = Ok noisy ->
  FlipTransformer noisy = Ok flipped_noisy ->
  FlipTransformer base = Ok flipped ->
  NoisyTransformer noise name_prefix flipped = Ok noisy_flipped ->
  call_strategy flipped_noisy self opponent w
  = call_strategy noisy_flipped self opponent w.
Proof.
  intros Hd Hn Hfn Hf Hnf.
  rewrite (decorated_call Hfn self opponent (decorate_defines_strategy Hn)).
  rewrite (decorated_call Hnf self opponent (decorate_defines_strategy Hf)).
  unfold mbind, M_bind, bind.
  rewrite (decorated_call Hn self opponent Hd).
  rewrite (decorated_call Hf self opponent Hd).
  unfold mbind, M_bind, bind, noisy_wrapper, flip_wrapper, random_random.
  unfold mbind, M_bind, bind.
  destruct (call_strategy base self opponent w) as [[a|e] w']; [|done].
  simpl. by destruct (Qlt_le_dec _ noise).
Qed.

Lemma flip_and_noise_commute_witness :
  exists noisy flipped_noisy flipped noisy_flipped,
    NoisyTransformer (1 # 3) (Some "Noisy") Defector = Ok noisy /\
    FlipTransformer noisy = Ok flipped_noisy /\
    FlipTransformer Defector = Ok flipped /\
    NoisyTransformer (1 # 3) (Some "Noisy") flipped = Ok noisy_flipped /\
    call_strategy flipped_noisy 0 1 (empty_world (1 # 2))
    = call_strategy noisy_flipped 0 1 (empty_world (1 # 2)).
Proof.
  eexists _, _, _, _. do 4 (split; [reflexivity|]).
  eapply (flip_and_noise_commute (1 # 3) (Some "Noisy") Defector);
    [exact (proj1 Defector_always_plays) | reflexivity..].
Defined.

(** X7: forgiving leaves a proposed Cooperate alone.  Over a base class
    that defines [strategy] in its own namespace, whatever the probability
    and whatever [random_choice] does, a decision for which the base
    proposes Cooperate returns Cooperate in the store the base left, and
    [random_choice] is not run; a proposed Defect is replaced by the outcome
    of [random_choice(p)]. *)
Theorem forgiver_keeps_cooperation
    (random_choice : Q -> M Action) (p : Q) (name_prefix : option string)
    (base cls : PyClass) (self opponent : loc) (w w1 : World) (a : Action) :
  defines_strategy base ->
  ForgiverTransformer random_choice p name_prefix base = Ok cls ->
  call_strategy base self opponent w = (Ok a, w1) ->
  call_strategy cls self opponent w
  = match a with
    | C => (Ok C, w1)
    | D => random_choice p w1
    end.
Proof.
  intros Hd Hcls Hb. rewrite (decorated_call Hcls self opponent Hd).
  rewrite (bind_ok Hb). unfold forgiver_wrapper. by destruct a.
Qed.

Lemma forgiver_keeps_cooperation_witness :
  exists cls,
    ForgiverTransformer (fun _ => raise TypeError) (1 # 2) (Some "Forgiving")
      Cooperator = Ok cls /\
    call_strategy cls 0 1 (empty_world 0) = (Ok C, empty_world 0).
Proof.
  eexists. split; [reflexivity|].
  apply (forgiver_keeps_cooperation (fun _ => raise TypeError) (1 # 2)
           (Some "Forgiving") Cooperator _ 0 1 (empty_world 0) (empty_world 0) C);
    [by eexists | reflexivity | reflexivity].
Defined.

(** * Further properties of the sequence wrappers *)

Lemma getitem_nat {A} (l : list A) (k : nat) w :
  getitem l (Z.of_nat k) w
  = match l !! k with
    | Some x => (Ok x, w)
    | None => (Raise IndexError, w)
    end.
Proof.
  unfold getitem. cbv zeta. settle_comparisons. rewrite Nat2Z.id.
  by destruct (l !! k).
Qed.

Lemma getitem_from_end {A} (l : list A) (k : nat) (x : A) w :
  1 <= k <= length l ->
  l !! (length l - k) = Some x ->
  getitem l (- Z.of_nat k) w = (Ok x, w).
Proof.
  intros Hk Hx. unfold getitem. cbv zeta. settle_comparisons.
  replace (- Z.of_nat k + Z.of_nat (length l))%Z
    with (Z.of_nat (length l - k)) by lia.
  by rewrite Nat2Z.id, Hx.
Qed.

Lemma round_tournament_length player opponent a b w :
  player <> opponent ->
  tournament_length
    (get_player (world_of (update_history opponent b
                             (world_of (update_history player a w)))) player)
  = tournament_length (get_player w player).
Proof.
  intros Hne. rewrite !update_history_eq. unfold world_of. simpl snd.
  rewrite (get_player_set_player_ne opponent player) by done.
  by rewrite get_player_set_player_eq.
Qed.

(** X8: the initial-sequence wrapper never raises and never changes the
    store: the bound check keeps the index inside the sequence, and the
    answer is the proposed action or an element of the sequence. *)
Theorem initial_sequence_never_raises (player opponent : loc)
    (action : Action) (initial_seq : list Action) (w : World) :
  exists x,
    initial_sequence player opponent action initial_seq w = (Ok x, w) /\
    (x = action \/ x ∈ initial_seq).
Proof.
  rewrite initial_sequence_spec. cbv zeta.
  destruct (initial_seq !! _) as [x|] eqn:Hx.
  - exists x. split; [done|]. right. by eapply list_elem_of_lookup_2.
  - exists action. by split; [|left].
Qed.

Lemma initial_outputs_step (seq : list Action) (n N : nat) (a x : Action) :
  match seq !! n with Some y => x = y | None => x = a end ->
  x :: take N (drop (n + 1) seq) ++ replicate (N - (length seq - (n + 1))) a
  = take (S N) (drop n seq) ++ replicate (S N - (length seq - n)) a.
Proof.
  intros Hx. replace (n + 1) with (S n) by lia.
  destruct (seq !! n) as [y|] eqn:Hy.
  - subst y. pose proof (lookup_lt_Some _ _ _ Hy) as Hlt.
    rewrite (drop_S _ _ _ Hy). simpl take.
    replace (S N - (length seq - n)) with (N - (length seq - S n)) by lia.
    reflexivity.
  - subst x. pose proof (lookup_ge_None_1 _ _ Hy) as Hge.
    rewrite !drop_ge by lia. rewrite !take_nil. simpl app.
    replace (S N - (length seq - n)) with (S N) by lia.
    replace (N - (length seq - S n)) with N by lia.
    reflexivity.
Qed.

Lemma play_initial seq base cls a player opponent :
  always_plays a base ->
  InitialTransformer seq base = Ok cls ->
  player <> opponent ->
  forall opponent_actions w,
    exists w',
      play cls player opponent opponent_actions w
      = (Ok (take (length opponent_actions)
               (drop (length (history (get_player w player)))
                  (seq_or_default seq))
             ++ replicate
                  (length opponent_actions
                   - (length (seq_or_default seq)
                      - length (history (get_player w player)))) a), w').
Proof.
  intros [Hd Hc] Hcls Hne opponent_actions.
  induction opponent_actions as [|b rest IH]; intros w.
  { exists w. reflexivity. }
  pose proof (initial_transformer_call _ _ _ _ _ _ _ _ Hd Hcls
                (Hc player opponent w)) as Hcall.
  assert (exists x,
            call_strategy cls player opponent w = (Ok x, w) /\
            match seq_or_default seq !! length (history (get_player w player))
            with Some y => x = y | None => x = a end) as (x & Hx & Hsel).
  { rewrite Hcall. destruct (_ !! _); eauto. }
  rewrite (play_cons _ _ _ _ _ _ _ _ Hx).
  destruct (round_histories player opponent x b w Hne) as (Hhp & _).
  destruct (IH (world_of (update_history opponent b
                  (world_of (update_history player x w))))) as (w' & Hplay).
  exists w'. rewrite (bind_ok Hplay). rewrite Hhp, length_app.
  change (length [x]) with 1. unfold mret, M_ret, ret. do 2 f_equal.
  by apply initial_outputs_step.
Qed.

(** X9: a whole match of an [InitialTransformer] instance over a base
    class that defines in its own namespace a [strategy] that always plays
    [a], started with an empty history: the player plays the
    sequence (the default [[D; D; D]] for an empty or absent one), cut to
    the number of rounds, and then [a] for the rounds that remain. *)
Theorem initial_transformer_match
    (seq : option (list Action)) (base cls : PyClass) (a : Action)
    (player opponent : loc) (opponent_actions : list Action) (w : World) :
  always_plays a base ->
  InitialTransformer seq base = Ok cls ->
  player <> opponent ->
  history (get_player w player) = [] ->
  exists w',
    play cls player opponent opponent_actions w
    = (Ok (take (length opponent_actions) (seq_or_default seq)
           ++ replicate
                (length opponent_actions - length (seq_or_default seq)) a),
       w').
Proof.
  intros Hb Hcls Hne Hh.
  destruct (play_initial seq base cls a player opponent Hb Hcls Hne
              opponent_actions w) as (w' & Hplay).
  exists w'. rewrite Hplay, Hh. simpl length. by rewrite Nat.sub_0_r.
Qed.

Lemma initial_transformer_match_witness :
  exists cls w',
    InitialTransformer (Some [D; C]) Cooperator = Ok cls /\
    play cls 0 1 [D; D; D; D] (empty_world 0) = (Ok [D; C; C; C], w').
Proof.
  destruct (initial_transformer_match (Some [D; C]) Cooperator _ C 0 1
              [D; D; D; D] (empty_world 0)
              Cooperator_always_plays eq_refl (O_S 0) eq_refl) as (w' & H).
  eexists _, w'. split; [reflexivity | exact H].
Defined.

(** X10: once the player has played [k] rounds more than the known match
    length, the final-sequence wrapper reads the sequence from the front:
    it returns [seq[k]] when [k < len(seq)] and raises [IndexError]
    otherwise; the proposed action is never returned. *)
Theorem final_sequence_past_the_end (player opponent : loc) (action : Action)
    (seq : list Action) (w : World) (k : nat) :
  (0 <= tournament_length (get_player w player))%Z ->
  Z.of_nat (length (history (get_player w player)))
  = (tournament_length (get_player w player) + Z.of_nat k)%Z ->
  final_sequence player opponent action seq w
  = match seq !! k with
    | Some x => (Ok x, w)
    | None => (Raise IndexError, w)
    end.
Proof.
  intros HL Hlen. rewrite final_sequence_spec. cbv zeta. rewrite Hlen.
  settle_comparisons.
  replace (- (tournament_length (get_player w player)
              - (tournament_length (get_player w player) + Z.of_nat k)))%Z
    with (Z.of_nat k) by lia.
  apply getitem_nat.
Qed.

Lemma final_sequence_past_the_end_witness :
  final_sequence 0 1 C [D; C] (world_with 0 [C; C; C] 2)
  = (Ok C, world_with 0 [C; C; C] 2) /\
  final_sequence 0 1 C [D; C] (world_with 0 [C; C; C; C] 2)
  = (Raise IndexError, world_with 0 [C; C; C; C] 2).
Proof.
  split.
  - apply (final_sequence_past_the_end 0 1 C [D; C]
             (world_with 0 [C; C; C] 2) 1); vm_compute;
      [discriminate | reflexivity].
  - apply (final_sequence_past_the_end 0 1 C [D; C]
             (world_with 0 [C; C; C; C] 2) 2); vm_compute;
      [discriminate | reflexivity].
Defined.

(** With [r + 1] rounds left of a match of known length, the wrapper
    returns the proposed action while more rounds are left than the
    sequence is long, and from then on the element that many places from
    the end of the sequence. *)
Lemma final_sequence_rounds_left player opponent action seq w r :
  tournament_length (get_player w player)
  = Z.of_nat (length (history (get_player w player)) + S r) ->
  final_sequence player opponent action seq w
  = match seq !! (length seq - S r) with
    | Some x => if decide (S r <= length seq) then (Ok x, w) else (Ok action, w)
    | None => (Ok action, w)
    end.
Proof.
  intros HL. rewrite final_sequence_spec. cbv zeta. rewrite HL.
  settle_comparisons.
  - destruct (lookup_lt_is_Some_2 seq (length seq - S r)) as [x Hx]; [lia|].
    rewrite Hx. rewrite decide_True by lia.
    replace (Z.of_nat (length (history (get_player w player)) + S r)
             - Z.of_nat (length (history (get_player w player))))%Z
      with (Z.of_nat (S r)) by lia.
    apply getitem_from_end; [lia | done].
  - destruct (seq !! _); [|done]. by rewrite decide_False by lia.
Qed.

Lemma final_outputs_step (seq : list Action) (N : nat) (a : Action) :
  (match seq !! (length seq - S N) with
   | Some x => if decide (S N <= length seq) then x else a
   | None => a
   end)
  :: replicate (N - length seq) a ++ drop (length seq - N) seq
  = replicate (S N - length seq) a ++ drop (length seq - S N) seq.
Proof.
  destruct (decide (S N <= length seq)) as [Hle|Hgt].
  - destruct (lookup_lt_is_Some_2 seq (length seq - S N)) as [x Hx]; [lia|].
    rewrite Hx, (drop_S _ _ _ Hx).
    replace (S N - length seq) with 0 by lia.
    replace (N - length seq) with 0 by lia.
    replace (S (length seq - S N)) with (length seq - N) by lia.
    reflexivity.
  - replace (S N - length seq) with (S (N - length seq)) by lia.
    replace (length seq - S N) with 0 by lia.
    replace (length seq - N) with 0 by lia.
    by destruct (seq !! 0).
Qed.

Lemma play_final seq base cls a player opponent :
  always_plays a base ->
  FinalTransformer seq base = Ok cls ->
  player <> opponent ->
  forall opponent_actions w,
    tournament_length (get_player w player)
    = Z.of_nat (length (history (get_player w player))
                + length opponent_actions) ->
    exists w',
      play cls player opponent opponent_actions w
      = (Ok (replicate
               (length opponent_actions - length (seq_or_default seq)) a
             ++ drop (length (seq_or_default seq) - length opponent_actions)
                  (seq_or_default seq)), w').
Proof.
  intros [Hd Hc] Hcls Hne opponent_actions.
  induction opponent_actions as [|b rest IH]; intros w HL.
  { exists w. simpl. by rewrite Nat.sub_0_r, drop_all. }
  simpl length in HL.
  assert (exists x,
            call_strategy cls player opponent w = (Ok x, w) /\
            x = match seq_or_default seq
                      !! (length (seq_or_default seq) - S (length rest)) with
                | Some y => if decide (S (length rest)
                                       <= length (seq_or_default seq))
                            then y else a
                | None => a
                end) as (x & Hx & Hsel).
  { rewrite (decorated_call Hcls player opponent Hd).
    rewrite (bind_ok (Hc player opponent w)).
    rewrite (final_sequence_rounds_left _ _ _ _ _ _ HL).
    destruct (_ !! _); [|eauto]. destruct (decide _); eauto. }
  rewrite (play_cons _ _ _ _ _ _ _ _ Hx).
  destruct (round_histories player opponent x b w Hne) as (Hhp & _).
  destruct (IH (world_of (update_history opponent b
                  (world_of (update_history player x w))))) as (w' & Hplay).
  { rewrite (round_tournament_length _ _ _ _ _ Hne), Hhp, length_app, HL.
    simpl. lia. }
  exists w'. rewrite (bind_ok Hplay). unfold mret, M_ret, ret. do 2 f_equal.
  rewrite Hsel. apply final_outputs_step.
Qed.

(** X11: a whole match of a [FinalTransformer] instance over a base class
    that defines in its own namespace a [strategy] that always plays [a],
    when the match length is known and the player starts with an empty
    history: no decision raises, the player plays [a] until as
    many rounds are left as the sequence is long and then the sequence, so
    that the match ends with it (with the end of it, when the match is
    shorter than the sequence). *)
Theorem final_transformer_match
    (seq : option (list Action)) (base cls : PyClass) (a : Action)
    (player opponent : loc) (opponent_actions : list Action) (w : World) :
  always_plays a base ->
  FinalTransformer seq base = Ok cls ->
  player <> opponent ->
  history (get_player w player) = [] ->
  tournament_length (get_player w player)
  = Z.of_nat (length opponent_actions) ->
  exists w',
    play cls player opponent opponent_actions w
    = (Ok (replicate
             (length opponent_actions - length (seq_or_default seq)) a
           ++ drop (length (seq_or_default seq) - length opponent_actions)
                (seq_or_default seq)), w').
Proof.
  intros Hb Hcls Hne Hh HL.
  apply (play_final seq base cls a player opponent Hb Hcls Hne).
  by rewrite Hh, HL.
Qed.

Lemma final_transformer_match_witness :
  exists cls w',
    FinalTransformer (Some [D; C]) Cooperator = Ok cls /\
    play cls 0 1 [C; C; C; C; C] (world_with 0 [] 5)
    = (Ok [C; C; C; D; C], w').
Proof.
  destruct (final_transformer_match (Some [D; C]) Cooperator _ C 0 1
              [C; C; C; C; C] (world_with 0 [] 5)
              Cooperator_always_plays eq_refl (O_S 0) eq_refl eq_refl)
    as (w' & H).
  eexists _, w'. split; [reflexivity | exact H].
Defined.

(** * Further properties of retaliation *)

(** After the first round the wrapper's answer and its new flag are
    functions of the opponent's last action and the old flag. *)
Lemma retaliation_step self player opponent action oh b flag w :
  wrappers w !! self = Some {| is_retaliating := flag |} ->
  history (get_player w player) <> [] ->
  history (get_player w opponent) = oh ++ [b] ->
  RetaliationWrapper_call self player opponent action w
  = (Ok (match b with
         | D => D
         | C => if flag then C else action
         end),
     set_wrapper self {| is_retaliating := bool_decide (b = D) |} w).
Proof.
  intros Hx Hp Ho. pose proof (lookup_lt_Some _ _ _ Hx) as Hself.
  unfold RetaliationWrapper_call, mbind, M_bind, bind, get_history.
  destruct (history (get_player w player)) as [|a0 hp]; [done|].
  change (length (a0 :: hp) =? 0) with false. cbv beta iota.
  rewrite Ho, getitem_last.
  destruct b.
  - destruct (decide (C = D)) as [?|_]; [done|].
    unfold mret, M_ret, ret, get_is_retaliating. cbv beta iota.
    rewrite Hx. destruct flag; cbv beta iota delta [is_retaliating].
    + rewrite Ho, getitem_last. destruct (decide (C = C)) as [_|?]; [|done].
      unfold set_is_retaliating. by rewrite Hx.
    + by rewrite set_wrapper_id.
  - destruct (decide (D = D)) as [_|?]; [|done].
    unfold set_is_retaliating at 1. rewrite Hx.
    unfold get_is_retaliating. cbv beta iota.
    rewrite set_wrapper_lookup by done.
    cbv beta iota delta [is_retaliating].
    rewrite get_player_set_wrapper, Ho, getitem_last.
    by destruct (decide (D = C)) as [?|_].
Qed.

Lemma retaliation_opponent_without_history self player opponent action w :
  history (get_player w player) <> [] ->
  history (get_player w opponent) = [] ->
  RetaliationWrapper_call self player opponent action w = (Raise IndexError, w).
Proof.
  intros Hp Ho.
  unfold RetaliationWrapper_call, mbind, M_bind, bind, get_history.
  destruct (history (get_player w player)) as [|a0 hp]; [done|].
  change (length (a0 :: hp) =? 0) with false. cbv beta iota.
  by rewrite Ho.
Qed.

(** X12: what a call of the retaliation wrapper does, case by case.  In the
    player's first round it returns the proposed action and reads neither
    the opponent nor its flag.  Later, if the opponent has no history, it
    raises [IndexError]; otherwise it answers Defect to a defection,
    Cooperate to a cooperation while the flag is on, and the proposed action
    to a cooperation while the flag is off, and in each case leaves the flag
    on exactly when the opponent's last action was Defect. *)
Theorem retaliation_wrapper_cases (self player opponent : loc)
    (action : Action) (flag : bool) (w : World) :
  wrappers w !! self = Some {| is_retaliating := flag |} ->
  (history (get_player w player) = [] ->
   RetaliationWrapper_call self player opponent action w = (Ok action, w)) /\
  (history (get_player w player) <> [] ->
   history (get_player w opponent) = [] ->
   RetaliationWrapper_call self player opponent action w
   = (Raise IndexError, w)) /\
  (history (get_player w player) <> [] ->
   forall oh b,
     history (get_player w opponent) = oh ++ [b] ->
     RetaliationWrapper_call self player opponent action w
     = (Ok (match b with
            | D => D
            | C => if flag then C else action
            end),
        set_wrapper self {| is_retaliating := bool_decide (b = D) |} w)).
Proof.
  intros Hx. split; [|split].
  - apply retaliation_first_round.
  - apply retaliation_opponent_without_history.
  - intros Hp oh b Ho. by eapply retaliation_step.
Qed.

Lemma retaliation_wrapper_cases_witness :
  RetaliationWrapper_call 0 0 1 D
    (two_matches (world_of (RetaliationWrapper_init (empty_world 0))))
  = (Ok D,
     set_wrapper 0 {| is_retaliating := true |}
       (two_matches (world_of (RetaliationWrapper_init (empty_world 0))))).
Proof.
  refine (proj2 (proj2 (retaliation_wrapper_cases 0 0 1 D false
                          (two_matches
                             (world_of (RetaliationWrapper_init (empty_world 0))))
                          eq_refl)) _ [] D eq_refl).
  vm_compute. discriminate.
Defined.

Lemma play_retaliation_unprovoked base cls self name_prefix a player opponent :
  always_plays a base ->
  decorate (RetaliationWrapper_call self) name_prefix base = Ok cls ->
  player <> opponent ->
  forall opponent_actions w,
    Forall (fun b => b = C) opponent_actions ->
    wrappers w !! self = Some {| is_retaliating := false |} ->
    length (history (get_player w player))
    = length (history (get_player w opponent)) ->
    last (history (get_player w opponent)) <> Some D ->
    exists w',
      play cls player opponent opponent_actions w
      = (Ok (replicate (length opponent_actions) a), w') /\
      wrappers w' = wrappers w.
Proof.
  intros [Hd Hc] Hcls Hne opponent_actions.
  induction opponent_actions as [|b rest IH]; intros w Hall Hx Hlen Hlast.
  { by exists w. }
  apply Forall_cons in Hall as [-> Hall].
  assert (call_strategy cls player opponent w = (Ok a, w)) as Hcall.
  { rewrite (decorated_call Hcls player opponent Hd).
    rewrite (bind_ok (Hc player opponent w)).
    destruct (history (get_player w opponent)) as [|b0 oh] eqn:Ho
      using rev_ind.
    - apply retaliation_first_round. by apply nil_length_inv.
    - rewrite last_snoc in Hlast. destruct b0; [|done].
      rewrite (retaliation_step _ _ _ _ oh C false w Hx); [|  |done].
      + by rewrite set_wrapper_id.
      + intros Hp. rewrite Hp, length_app in Hlen. simpl in Hlen. lia. }
  rewrite (play_cons _ _ _ _ _ _ _ _ Hcall).
  destruct (round_histories player opponent a C w Hne)
    as (Hhp & Hho & _ & Hwr).
  destruct (IH (world_of (update_history opponent C
                  (world_of (update_history player a w)))) Hall)
    as (w' & Hplay & Hw').
  { by rewrite Hwr. }
  { rewrite Hhp, Hho, !length_app. simpl. lia. }
  { by rewrite Hho, last_snoc. }
  exists w'. rewrite (bind_ok Hplay). split; [done|]. by rewrite Hw', Hwr.
Qed.

(** X13: an instance that is not provoked is not altered, in a match that
    nothing interrupts.  When the flag of the wrapper is off at the start of
    a match, the opponent cooperates in every round and no other decision is
    made in between, a retaliate-until-apology instance over a base class
    that defines in its own namespace a [strategy] that always plays [a]
    plays [a] in every round, Defect included, and no wrapper object
    changes. *)
Theorem retaliation_unprovoked_is_unaltered
    (base cls : PyClass) (self : loc) (name_prefix : option string)
    (a : Action) (player opponent : loc) (rounds : nat) (w : World) :
  always_plays a base ->
  decorate (RetaliationWrapper_call self) name_prefix base = Ok cls ->
  player <> opponent ->
  wrappers w !! self = Some {| is_retaliating := false |} ->
  history (get_player w player) = [] ->
  history (get_player w opponent) = [] ->
  exists w',
    play cls player opponent (replicate rounds C) w
    = (Ok (replicate rounds a), w') /\
    wrappers w' = wrappers w.
Proof.
  intros Hb Hcls Hne Hx Hp Ho.
  destruct (play_retaliation_unprovoked base cls self name_prefix a
              player opponent Hb Hcls Hne (replicate rounds C) w)
    as (w' & Hplay & Hw').
  - by apply Forall_replicate.
  - done.
  - by rewrite Hp, Ho.
  - by rewrite Ho.
  - exists w'. by rewrite length_replicate in Hplay.
Qed.

Lemma retaliation_unprovoked_is_unaltered_witness :
  exists cls w',
    decorate (RetaliationWrapper_call 0) (Some "RUA") Defector = Ok cls /\
    play cls 0 1 [C; C; C]
      (world_of (RetaliationWrapper_init (empty_world 0)))
    = (Ok [D; D; D], w') /\
    wrappers w' = [ {| is_retaliating := false |} ].
Proof.
  destruct (retaliation_unprovoked_is_unaltered Defector _ 0 (Some "RUA") D
              0 1 3 (world_of (RetaliationWrapper_init (empty_world 0)))
              Defector_always_plays eq_refl (O_S 0) eq_refl eq_refl eq_refl)
    as (w' & Hplay & Hw').
  eexists _, w'. split; [reflexivity|]. split; [exact Hplay | exact Hw'].
Defined.

(** * Further properties of history tracking *)

(** X14: tracking twice records twice: over a base class that defines
    [strategy] in its own namespace, a decision of the class derived by two
    applications of [TrackHistoryTransformer] returns the action the base
    proposed and appends it two times to the player's recorded history. *)
Theorem tracking_twice_records_twice
    (base tracked tracked2 : PyClass) (player opponent : loc)
    (w w1 : World) (a : Action) :
  defines_strategy base ->
  TrackHistoryTransformer base = Ok tracked ->
  TrackHistoryTransformer tracked = Ok tracked2 ->
  call_strategy base player opponent w = (Ok a, w1) ->
  exists w2,
    call_strategy tracked2 player opponent w = (Ok a, w2) /\
    _recorded_history (get_player w2 player)
    = Some (default [] (_recorded_history (get_player w1 player)) ++ [a; a]).
Proof.
  intros Hd H1 H2 Hb.
  destruct (tracked_call_log _ _ _ _ _ _ _ Hd H1 Hb) as (w2 & Hcall & Hlog).
  destruct (tracked_call_log _ _ _ _ _ _ _ (decorate_defines_strategy H1)
              H2 Hcall) as (w3 & Hcall2 & Hlog2).
  exists w3. split; [done|]. rewrite Hlog2, Hlog. simpl.
  by rewrite <- app_assoc.
Qed.

Lemma tracking_twice_records_twice_witness :
  exists tracked tracked2 w2,
    TrackHistoryTransformer Defector = Ok tracked /\
    TrackHistoryTransformer tracked = Ok tracked2 /\
    call_strategy tracked2 0 1 (empty_world 0) = (Ok D, w2) /\
    _recorded_history (get_player w2 0) = Some [D; D].
Proof.
  destruct (tracking_twice_records_twice Defector _ _ 0 1 (empty_world 0)
              (empty_world 0) D (proj1 Defector_always_plays)
              eq_refl eq_refl eq_refl) as (w2 & Hcall & Hlog).
  eexists _, _, w2. split; [reflexivity|]. split; [reflexivity|].
  split; [exact Hcall | exact Hlog].
Defined.

(** X15: the order of tracking and flipping shows in the log, not in the
    decision.  Over a base class that defines [strategy] in its own
    namespace, both the tracked flipped class and the flipped tracked class
    return the flipped proposed action; the first records the flipped
    action, the second the action the base proposed. *)
Theorem tracking_records_what_it_wraps
    (base flipped tracked_flipped tracked flipped_tracked : PyClass)
    (player opponent : loc) (w w1 : World) (a : Action) :
  defines_strategy base ->
  FlipTransformer base = Ok flipped ->
  TrackHistoryTransformer flipped = Ok tracked_flipped ->
  TrackHistoryTransformer base = Ok tracked ->
  FlipTransformer tracked = Ok flipped_tracked ->
  call_strategy base player opponent w = (Ok a, w1) ->
  (exists w2,
     call_strategy tracked_flipped player opponent w
     = (Ok (flip_action a), w2) /\
     _recorded_history (get_player w2 player)
     = Some (default [] (_recorded_history (get_player w1 player))
               ++ [flip_action a])) /\
  (exists w2,
     call_strategy flipped_tracked player opponent w
     = (Ok (flip_action a), w2) /\
     _recorded_history (get_player w2 player)
     = Some (default [] (_recorded_history (get_player w1 player)) ++ [a])).
Proof.
  intros Hd Hf Htf Ht Hft Hb. split.
  - assert (call_strategy flipped player opponent w
            = (Ok (flip_action a), w1)) as Hflip.
    { rewrite (decorated_call Hf player opponent Hd). by rewrite (bind_ok Hb). }
    exact (tracked_call_log _ _ _ _ _ _ _ (decorate_defines_strategy Hf)
             Htf Hflip).
  - destruct (tracked_call_log _ _ _ _ _ _ _ Hd Ht Hb) as (w2 & Hcall & Hlog).
    exists w2. split; [|done].
    rewrite (decorated_call Hft player opponent (decorate_defines_strategy Ht)).
    by rewrite (bind_ok Hcall).
Qed.

Lemma tracking_records_what_it_wraps_witness :
  exists flipped tracked_flipped tracked flipped_tracked,
    FlipTransformer Cooperator = Ok flipped /\
    TrackHistoryTransformer flipped = Ok tracked_flipped /\
    TrackHistoryTransformer Cooperator = Ok tracked /\
    FlipTransformer tracked = Ok flipped_tracked /\
    (exists w2,
       call_strategy tracked_flipped 0 1 (empty_world 0) = (Ok D, w2) /\
       _recorded_history (get_player w2 0) = Some [D]) /\
    (exists w2,
       call_strategy flipped_tracked 0 1 (empty_world 0) = (Ok D, w2) /\
       _recorded_history (get_player w2 0) = Some [C]).
Proof.
  eexists _, _, _, _. do 4 (split; [reflexivity|]).
  exact (tracking_records_what_it_wraps Cooperator _ _ _ _ 0 1
           (empty_world 0) (empty_world 0) C
           (proj1 Cooperator_always_plays)
           eq_refl eq_refl eq_refl eq_refl eq_refl).
Defined.

(** * Separate transformers *)

(** A call of an allocated retaliation wrapper changes at most its own
    wrapper object. *)
Lemma retaliation_call_frame self player opponent action w :
  self < length (wrappers w) ->
  world_of (RetaliationWrapper_call self player opponent action w) = w \/
  exists x,
    world_of (RetaliationWrapper_call self player opponent action w)
    = set_wrapper self x w.
Proof.
  intros Hself.
  destruct (lookup_lt_is_Some_2 _ _ Hself) as [[flag] Hx].
  destruct (history (get_player w player)) as [|a0 hp] eqn:Hp.
  { left. by rewrite retaliation_first_round. }
  destruct (history (get_player w opponent)) as [|b oh] eqn:Ho using rev_ind.
  { left. rewrite retaliation_opponent_without_history; [done| |done].
    by rewrite Hp. }
  right. eexists.
  rewrite (retaliation_step _ _ _ _ oh b flag w Hx); [done| |done].
  by rewrite Hp.
Qed.

(** X16: transformers built separately keep separate state.  Of two
    retaliate-until-apology transformers built one after the other, the
    second closes over a wrapper object of its own, and no decision of an
    instance of a class derived by the first changes that object (over a
    base that always plays [a], in any later store). *)
Theorem separate_transformers_keep_separate_state
    (prefix1 prefix2 : option string) (base cls1 : PyClass) (a : Action)
    (T1 T2 : Transformer) (w0 w1 w2 w : World) (self opponent : loc) :
  always_plays a base ->
  RetailiateUntilApologyTransformer prefix1 w0 = (Ok T1, w1) ->
  RetailiateUntilApologyTransformer prefix2 w1 = (Ok T2, w2) ->
  T1 base = Ok cls1 ->
  length (wrappers w2) <= length (wrappers w) ->
  exists r2,
    T2 = StrategyTransformerFactory (RetaliationWrapper_call r2) prefix2 /\
    wrappers (world_of (call_strategy cls1 self opponent w)) !! r2
    = wrappers w !! r2.
Proof.
  intros [Hd Hc] H1 H2 Hcls Hw.
  pose proof (retaliation_transformer_inv _ _ _ _ H1) as [-> Hlt1].
  pose proof (retaliation_transformer_inv _ _ _ _ H2) as [-> Hlt2].
  exists (length (wrappers w1)). split; [done|].
  rewrite (decorated_call Hcls self opponent Hd).
  rewrite (bind_ok (Hc self opponent w)).
  destruct (retaliation_call_frame (length (wrappers w0)) self opponent a w)
    as [-> | [x ->]]; [lia | done |].
  simpl. apply list_lookup_insert_ne. lia.
Qed.

Lemma separate_transformers_keep_separate_state_witness :
  exists T1 w1 T2 w2 cls1 r2,
    RetailiateUntilApologyTransformer (Some "RUA") (empty_world 0) = (Ok T1, w1) /\
    RetailiateUntilApologyTransformer (Some "RUA") w1 = (Ok T2, w2) /\
    T1 Defector = Ok cls1 /\
    T2 = StrategyTransformerFactory (RetaliationWrapper_call r2) (Some "RUA") /\
    wrappers (world_of (call_strategy cls1 0 1 (two_matches w2))) !! r2
    = wrappers (two_matches w2) !! r2.
Proof.
  destruct (separate_transformers_keep_separate_state
              (Some "RUA") (Some "RUA") Defector _ D _ _
              (empty_world 0) _ _
              (two_matches
                 (world_of (RetailiateUntilApologyTransformer (Some "RUA")
                    (world_of (RetailiateUntilApologyTransformer (Some "RUA")
                                 (empty_world 0))))))
              0 1 Defector_always_plays eq_refl eq_refl eq_refl (le_n _))
    as (r2 & HT & Hw).
  eexists _, _, _, _, _, r2.
  split; [reflexivity|]. split; [reflexivity|]. split; [reflexivity|].
  split; [exact HT | exact Hw].
Defined.
